(** * AB_Testing.py: the A/B-test script as a shallow embedding

    The script loads two sheets (control and test), caps the outliers of the
    "Purchase" column of each, labels and concatenates the two frames, runs
    the Shapiro-Wilk and Levene assumption checks and then an independent
    two-sample t-test, printing a verdict after each test.

    Modelling choices.
    - A Python float is a rational number or NaN ([float]); rounding and
      infinities are left out.
    - A pandas DataFrame is its index together with a finite map from column
      names to columns of cells; a cell holds a float or a string. A column
      of floats stands for a float64 column and a column with strings for an
      object column; integer columns are not modelled.
    - A pandas or scipy call that raises ends the run: such calls return
      [option], and [None] stands for the exception.
    - The four scipy.stats routines the script imports are an interface
      ([ScipyStats]); the script is a function of an implementation of it. *)

From Stdlib Require Import QArith Qround Lqa.
From stdpp Require Import gmap strings list fin_maps sorting.

(** ** Floats *)

Inductive float : Type :=
  | Num (q : Q)
  | NaN.

Definition Qltb (x y : Q) : bool :=
  match (x ?= y)%Q with Lt => true | _ => false end.

Definition fadd (a b : float) : float :=
  match a, b with Num x, Num y => Num (x + y) | _, _ => NaN end.
Definition fsub (a b : float) : float :=
  match a, b with Num x, Num y => Num (x - y) | _, _ => NaN end.
Definition fmul (a b : float) : float :=
  match a, b with Num x, Num y => Num (x * y) | _, _ => NaN end.

(** [a < b] and [a > b] on floats: false as soon as one side is NaN. *)
Definition flt (a b : float) : bool :=
  match a, b with Num x, Num y => Qltb x y | _, _ => false end.
Definition fgt (a b : float) : bool := flt b a.

(** ** Series and data frames *)

Inductive cell : Type :=
  | CFloat (x : float)
  | CStr (s : string).

#[global] Instance string_cell_eq_dec (c : cell) (s : string) :
  Decision (c = CStr s).
Proof.
  destruct c as [x|s'].
  - right; discriminate.
  - destruct (decide (s' = s)) as [->|Hne]; [by left|right; congruence].
Defined.

Record DataFrame : Type := mkDataFrame {
  index : list nat;
  columns : gmap string (list cell)
}.

Definition nrows (df : DataFrame) : nat := length (index df).

(** [dataframe[variable]]: KeyError when the column is absent. *)
Definition getitem (df : DataFrame) (variable : string) : option (list cell) :=
  columns df !! variable.

(** The numeric view of a series: TypeError on a string cell. *)
Definition as_float (c : cell) : option float :=
  match c with CFloat x => Some x | CStr _ => None end.

Definition floats (s : list cell) : option (list float) := mapM as_float s.

Definition dropna (xs : list float) : list Q :=
  omap (λ x, match x with Num q => Some q | NaN => None end) xs.

#[global] Instance Qle_dec (x y : Q) : Decision (x <= y)%Q :=
  decide (Qnum x * QDen y ≤ Qnum y * QDen x)%Z.

(** Linear interpolation between the two order statistics around the
    position [(n - 1) * q], as [Series.quantile] does by default; NaN on an
    empty sample. *)
Definition linear_quantile (xs : list Q) (q : Q) : float :=
  match xs with
  | [] => NaN
  | _ :: _ =>
      let sorted := merge_sort Qle xs in
      let n := length sorted in
      let pos := (inject_Z (Z.of_nat (n - 1)) * q)%Q in
      let lo := Z.to_nat (Qfloor pos) in
      let hi := Nat.min (lo + 1) (n - 1) in
      let gamma := (pos - inject_Z (Qfloor pos))%Q in
      let a := nth lo sorted 0%Q in
      let b := nth hi sorted 0%Q in
      Num (a + (b - a) * gamma)
  end.

(** [series.quantile(q)]: missing values are skipped. *)
Definition quantile (s : list cell) (q : Q) : option float :=
  xs ← floats s; Some (linear_quantile (dropna xs) q).

(** [series < limit] and [series > limit]: the boolean mask. *)
Definition series_lt (s : list cell) (limit : float) : option (list bool) :=
  xs ← floats s; Some (map (λ x, flt x limit) xs).
Definition series_gt (s : list cell) (limit : float) : option (list bool) :=
  xs ← floats s; Some (map (λ x, fgt x limit) xs).

(** [dataframe.loc[mask, variable] = value] *)
Definition loc_set (df : DataFrame) (mask : list bool) (variable : string)
    (value : float) : option DataFrame :=
  col ← getitem df variable;
  Some (mkDataFrame (index df)
          (<[variable := zip_with (λ (m : bool) c, if m then CFloat value else c)
                           mask col]> (columns df))).

(** ** Step 3 of task 1: outlier thresholds and capping *)

Definition outlier_thresholds (dataframe : DataFrame) (variable : string)
    : option (float * float) :=
  s1 ← getitem dataframe variable;
  quartile1 ← quantile s1 (1 # 100);
  s3 ← getitem dataframe variable;
  quartile3 ← quantile s3 (99 # 100);
  let interquantile_range := fsub quartile3 quartile1 in
  let up_limit := fadd quartile3 (fmul (Num (3 # 2)) interquantile_range) in
  let low_limit := fsub quartile1 (fmul (Num (3 # 2)) interquantile_range) in
  Some (low_limit, up_limit).

(** The function mutates its argument; here it returns the new frame. *)
Definition replace_with_thresholds (dataframe : DataFrame) (variable : string)
    : option DataFrame :=
  '(low_limit, up_limit) ← outlier_thresholds dataframe variable;
  s ← getitem dataframe variable;
  below ← series_lt s low_limit;
  dataframe1 ← loc_set dataframe below variable low_limit;
  s' ← getitem dataframe1 variable;
  above ← series_gt s' up_limit;
  loc_set dataframe1 above variable up_limit.

(** ** Step 4 of task 1: labelling and concatenation *)

(** [dataframe[name] = value]: a constant column, one cell per row. *)
Definition setitem (df : DataFrame) (name : string) (value : cell) : DataFrame :=
  mkDataFrame (index df) (<[name := replicate (nrows df) value]> (columns df)).

(** [pd.concat([a, b], axis=0, ignore_index=True)]: rows of [a], then rows
    of [b]; a column that one frame lacks is filled with NaN there; the
    index of the result is 0, 1, ... *)
Definition concat_columns (na nb : nat) (ca cb : option (list cell))
    : option (list cell) :=
  match ca, cb with
  | Some xa, Some xb => Some (xa ++ xb)
  | Some xa, None => Some (xa ++ replicate nb (CFloat NaN))
  | None, Some xb => Some (replicate na (CFloat NaN) ++ xb)
  | None, None => None
  end.

Definition pd_concat (a b : DataFrame) : DataFrame :=
  mkDataFrame (seq 0 (nrows a + nrows b))
    (merge (concat_columns (nrows a) (nrows b)) (columns a) (columns b)).

(** Lines 99 to 102. *)
Definition merge_groups (dfc dft : DataFrame) : DataFrame :=
  let dfc := setitem dfc "Group" (CStr "C") in
  let dft := setitem dft "Group" (CStr "T") in
  pd_concat dfc dft.

(** Lines 89 to 102: from the two loaded sheets to the combined frame. *)
Definition prepare (dfc dft : DataFrame) : option DataFrame :=
  dfc ← replace_with_thresholds dfc "Purchase";
  dft ← replace_with_thresholds dft "Purchase";
  Some (merge_groups dfc dft).

(** [series == value] for a string value. *)
Definition series_eq (s : list cell) (value : string) : list bool :=
  map (λ c, bool_decide (c = CStr value)) s.

Fixpoint select (mask : list bool) (s : list cell) : list cell :=
  match mask, s with
  | m :: mask', c :: s' => if m then c :: select mask' s' else select mask' s'
  | _, _ => []
  end.

(** [df.loc[df[key] == value, variable]] *)
Definition loc_where (df : DataFrame) (key value variable : string)
    : option (list cell) :=
  k ← getitem df key;
  col ← getitem df variable;
  Some (select (series_eq k value) col).

(** The i-th row: the cell of every column at position i. *)
Definition row (df : DataFrame) (i : nat) : gmap string cell :=
  omap (λ col : list cell, col !! i) (columns df).

(** Every column has one cell per index entry. *)
Definition well_formed (df : DataFrame) : Prop :=
  map_Forall (λ _ (col : list cell), length col = nrows df) (columns df).

#[global] Instance well_formed_dec (df : DataFrame) : Decision (well_formed df).
Proof. unfold well_formed. apply _. Defined.

(** ** Task 2: the tests *)

(** What the script imports from scipy.stats. Each routine returns the pair
    (statistic, p-value), or raises. *)
Class ScipyStats : Type := {
  shapiro : list cell → option (float * float);
  levene : list cell → list cell → option (float * float);
  ttest_ind : list cell → list cell → bool → option (float * float);
  mannwhitneyu : list cell → list cell → option (float * float)
}.

Inductive Call : Type :=
  | CallShapiro (x : list cell)
  | CallLevene (x y : list cell)
  | CallTtestInd (x y : list cell) (equal_var : bool)
  | CallMannWhitneyU (x y : list cell).

(** A printed line: a fixed text, or an f-string ending in a float. *)
Inductive Line : Type :=
  | Text (s : string)
  | Fmt (prefix : string) (x : float).

Record World : Type := mkWorld {
  stdout : list Line;
  calls : list Call
}.

(** A script step: it extends the output and the call log, and returns a
    value unless an exception ends the run. *)
Definition Script (A : Type) : Type := World → World * option A.

#[global] Instance script_ret : MRet Script := λ A (x : A) w, (w, Some x).
#[global] Instance script_bind : MBind Script := λ A B (f : A → Script B) m w,
  match m w with
  | (w', Some x) => f x w'
  | (w', None) => (w', None)
  end.

Definition raise_or_return {A} (o : option A) : Script A := λ w, (w, o).

Definition print (l : Line) : Script unit :=
  λ w, (mkWorld (stdout w ++ [l]) (calls w), Some tt).

Definition call {A} (c : Call) (result : option A) : Script A :=
  λ w, (mkWorld (stdout w) (calls w ++ [c]), result).

Section Task2.
Context `{stats : ScipyStats}.

(** Lines 121 to 164. The names [statistic], [p_value] and [alpha] are
    rebound as the script reassigns them. *)
Definition ab_test (df : DataFrame) : Script unit :=
  c ← raise_or_return (loc_where df "Group" "C" "Purchase");
  '(statistic, p_value) ← call (CallShapiro c) (shapiro c);
  let alpha := Num (5 # 100) in
  _ ← (if fgt p_value alpha
       then print (Text "Sample looks normal!")
       else print (Text "Sample does not look normal!"));
  t ← raise_or_return (loc_where df "Group" "T" "Purchase");
  '(statistic, p_value) ← call (CallShapiro t) (shapiro t);
  let alpha := Num (5 # 100) in
  _ ← (if fgt p_value alpha
       then print (Text "Sample looks normal!")
       else print (Text "Sample does not look normal!"));
  c ← raise_or_return (loc_where df "Group" "C" "Purchase");
  t ← raise_or_return (loc_where df "Group" "T" "Purchase");
  '(statistic, p_value) ← call (CallLevene c t) (levene c t);
  let alpha := Num (5 # 100) in
  _ ← (if fgt p_value alpha
       then print (Text "Variances are homogene!")
       else print (Text "Variances are not homogene!"));
  c ← raise_or_return (loc_where df "Group" "C" "Purchase");
  t ← raise_or_return (loc_where df "Group" "T" "Purchase");
  '(test_stat, p_value) ← call (CallTtestInd c t true) (ttest_ind c t true);
  if fgt p_value alpha
  then
    _ ← print (Text "H0 can not be denied!");
    _ ← print (Fmt "t statistic = " test_stat);
    print (Fmt "p value = " p_value)
  else
    _ ← print (Text "H0 can denied!");
    _ ← print (Fmt "t statistic = " test_stat);
    print (Fmt "p value = " p_value).

(** The script from the capping on, on the two loaded sheets. The
    descriptive printing of [check_df] is not part of the model. *)
Definition script (dfc dft : DataFrame) : Script unit :=
  df ← raise_or_return (prepare dfc dft);
  ab_test df.

Definition run (dfc dft : DataFrame) : World * option unit :=
  script dfc dft (mkWorld [] []).
End Task2.

Section Task2Log.
Context `{stats : ScipyStats}.

(** What scipy answered to a logged call. *)
Definition call_result (c : Call) : option (float * float) :=
  match c with
  | CallShapiro x => shapiro x
  | CallLevene x y => levene x y
  | CallTtestInd x y equal_var => ttest_ind x y equal_var
  | CallMannWhitneyU x y => mannwhitneyu x y
  end.
End Task2Log.

(** ** Auxiliary definitions for the proofs *)

(** What the two assignments of [replace_with_thresholds] do to one float. *)
Definition clip (low up x : float) : float :=
  let y := if flt x low then low else x in
  if fgt y up then up else y.

(** One call of the capper on a field, and two calls in a row. *)
Definition cap_once (df : DataFrame) (v : string) : option DataFrame :=
  replace_with_thresholds df v.
Definition cap_twice (df : DataFrame) (v : string) : option DataFrame :=
  df1 ← replace_with_thresholds df v; replace_with_thresholds df1 v.

(** The interpolation step of [linear_quantile] on a sorted sample. *)
Definition interp (s : list Q) (pos : Q) : Q :=
  let lo := Z.to_nat (Qfloor pos) in
  let hi := Nat.min (lo + 1) (length s - 1) in
  (nth lo s 0 + (nth hi s 0 - nth lo s 0) * (pos - inject_Z (Qfloor pos)))%Q.

(** ** Sample frames *)

Definition fcol (xs : list Q) : list cell := map (λ q, CFloat (Num q)) xs.

Definition frame (n : nat) (cs : list (string * list cell)) : DataFrame :=
  mkDataFrame (seq 0 n) (list_to_map cs).

Definition Qseq (n : nat) : list Q := map (λ k, inject_Z (Z.of_nat k)) (seq 0 n).

Definition df81 : DataFrame :=
  frame 81 [("Purchase", fcol (replicate 80 0%Q ++ [100%Q]))].
Definition df101 : DataFrame :=
  frame 101 [("Purchase", fcol (Qseq 100 ++ [1000%Q]))].

Definition df_flat : DataFrame :=
  frame 101 [("Purchase", fcol ([-7]%Q ++ replicate 99 5%Q ++ [1000]%Q))].

(** The line printed after each test, as a function of the p-value. *)
Definition normality_line (p_value : float) : Line :=
  if fgt p_value (Num (5 # 100))
  then Text "Sample looks normal!" else Text "Sample does not look normal!".
Definition homogeneity_line (p_value : float) : Line :=
  if fgt p_value (Num (5 # 100))
  then Text "Variances are homogene!" else Text "Variances are not homogene!".
Definition decision_line (p_value : float) : Line :=
  if fgt p_value (Num (5 # 100))
  then Text "H0 can not be denied!" else Text "H0 can denied!".

(** Two small sheets with the four columns of the workbook. *)
Definition control_sheet : DataFrame :=
  frame 5 [("Impression", fcol [82529; 98050; 82696; 109914; 108457]%Q);
           ("Click", fcol [6090; 3383; 4168; 4911; 5988]%Q);
           ("Purchase", fcol [665; 315; 458; 487; 441]%Q);
           ("Earning", fcol [2311; 1743; 1798; 1696; 1544]%Q)].
Definition test_sheet : DataFrame :=
  frame 4 [("Impression", fcol [120104; 134776; 107807; 116445]%Q);
           ("Click", fcol [3217; 3635; 3057; 4650]%Q);
           ("Purchase", fcol [702; 834; 423; 429]%Q);
           ("Earning", fcol [1940; 2929; 2526; 2281]%Q)].

(** Stand-ins for scipy.stats that answer with fixed (statistic, p-value)
    pairs: one where both assumption checks pass and the t-test p-value is
    0.349, as the script's comments report for its workbook; one where the
    normality check fails; one where the homogeneity check fails. *)
Definition scipy_reported : ScipyStats := {|
  shapiro _ := Some (Num (98 # 100), Num (59 # 100));
  levene _ _ := Some (Num (24 # 10), Num (11 # 100));
  ttest_ind _ _ _ := Some (Num (-94 # 100), Num (349 # 1000));
  mannwhitneyu _ _ := Some (Num 723, Num (46 # 100))
|}.
Definition scipy_heteroscedastic : ScipyStats := {|
  shapiro _ := Some (Num (98 # 100), Num (59 # 100));
  levene _ _ := Some (Num (71 # 10), Num (1 # 100));
  ttest_ind _ _ _ := Some (Num (-94 # 100), Num (349 # 1000));
  mannwhitneyu _ _ := Some (Num 723, Num (46 # 100))
|}.

(** Shapiro-Wilk refuses samples of fewer than three values. *)
Definition scipy_small_sample : ScipyStats := {|
  shapiro x := if length x <? 3 then None
               else Some (Num (98 # 100), Num (59 # 100));
  levene _ _ := Some (Num (24 # 10), Num (11 # 100));
  ttest_ind _ _ _ := Some (Num (-94 # 100), Num (349 # 1000));
  mannwhitneyu _ _ := Some (Num 723, Num (46 # 100))
|}.

(** * Properties *)

(** ** Capping *)

Example cap5 :
  (dfo ← replace_with_thresholds
           (frame 5 [("Purchase", fcol [1; 2; 3; 4; 100]%Q)]) "Purchase";
   getitem dfo "Purchase")
  = Some (fcol [1; 2; 3; 4; 100]%Q).
Proof. vm_compute. reflexivity. Qed.

Lemma floats_CFloat (xs : list float) : floats (map CFloat xs) = Some xs.
Proof.
  unfold floats. induction xs as [|x xs IH]; [done|].
  simpl. rewrite IH. done.
Qed.

Lemma floats_Some (s : list cell) (xs : list float) :
  floats s = Some xs → s = map CFloat xs.
Proof.
  unfold floats. revert xs. induction s as [|c s IH]; intros xs Hs; simpl in Hs.
  - by inversion Hs.
  - destruct c as [x|?]; simpl in Hs; [|done].
    destruct (mapM as_float s) as [ys|] eqn:E; simpl in Hs; [|done].
    inversion Hs; subst. simpl. f_equal. by apply IH.
Qed.

Lemma zip_with_mask (g : float → bool) (v : float) (xs : list float) :
  zip_with (λ (m : bool) c, if m then CFloat v else c) (map g xs) (map CFloat xs)
  = map CFloat (map (λ x, if g x then v else x) xs).
Proof.
  induction xs as [|x xs IH]; [done|]. simpl. rewrite IH. by destruct (g x).
Qed.

Lemma replace_with_thresholds_Some df v df' :
  replace_with_thresholds df v = Some df' →
  ∃ xs low up,
    getitem df v = Some (map CFloat xs) ∧
    outlier_thresholds df v = Some (low, up) ∧
    df' = mkDataFrame (index df)
            (<[v := map CFloat (map (clip low up) xs)]> (columns df)).
Proof.
  unfold replace_with_thresholds. intros Hr.
  destruct (outlier_thresholds df v) as [[low up]|] eqn:Ht; simpl in Hr; [|done].
  destruct (getitem df v) as [s|] eqn:Hs; simpl in Hr; [|done].
  unfold series_lt in Hr.
  destruct (floats s) as [xs|] eqn:Hf; simpl in Hr; [|done].
  apply floats_Some in Hf. subst s.
  unfold loc_set in Hr. rewrite Hs in Hr. simpl in Hr.
  unfold getitem in Hr. simpl in Hr. rewrite lookup_insert_eq in Hr. simpl in Hr.
  rewrite zip_with_mask in Hr.
  unfold series_gt in Hr. rewrite floats_CFloat in Hr. simpl in Hr.
  rewrite zip_with_mask, insert_insert_eq in Hr.
  inversion Hr as [Hdf]. exists xs, low, up. split; [done|]. split; [done|].
  rewrite !map_map. done.
Qed.

#[global] Instance Qle_transitive : Transitive Qle.
Proof. intros x y z. apply Qle_trans. Qed.
#[global] Instance Qle_total : Total Qle.
Proof. intros x y. destruct (Qlt_le_dec x y) as [Hlt|Hle]; [left; by apply Qlt_le_weak|by right]. Qed.

Lemma linear_quantile_interp (xs : list Q) (q : Q) :
  xs ≠ [] →
  linear_quantile xs q
  = Num (interp (merge_sort Qle xs)
           (inject_Z (Z.of_nat (length (merge_sort Qle xs) - 1)) * q)).
Proof. destruct xs; [done|]. intros _. reflexivity. Qed.

Lemma sorted_nth_le (s : list Q) (i j : nat) :
  StronglySorted Qle s → i ≤ j → j < length s →
  (nth i s 0 <= nth j s 0)%Q.
Proof.
  intros Hs. revert i j. induction Hs as [|x s Hs IH Hx]; intros i j Hij Hj.
  - simpl in Hj. lia.
  - destruct i as [|i], j as [|j]; simpl in *; try lia.
    + apply Qle_refl.
    + rewrite Forall_forall in Hx. apply Hx. apply list_elem_of_In, nth_In. lia.
    + apply IH; lia.
Qed.

Section Interp.
Variable s : list Q.
Hypothesis Hsorted : StronglySorted Qle s.
Hypothesis Hne : 0 < length s.

Let top : Q := inject_Z (Z.of_nat (length s - 1)).

Lemma floor_range (pos : Q) :
  (0 <= pos)%Q → (pos <= top)%Q →
  Z.to_nat (Qfloor pos) ≤ length s - 1 ∧ (0 ≤ Qfloor pos)%Z.
Proof.
  intros H0 H1.
  assert (0 ≤ Qfloor pos)%Z as Hf0.
  { change 0%Z with (Qfloor (inject_Z 0)). by apply Qfloor_resp_le. }
  split; [|done].
  apply (Qfloor_resp_le _ _) in H1. unfold top in H1. rewrite Qfloor_Z in H1. lia.
Qed.

Lemma interp_bounds (pos : Q) :
  (0 <= pos)%Q → (pos <= top)%Q →
  (nth (Z.to_nat (Qfloor pos)) s 0 <= interp s pos)%Q ∧
  (interp s pos
   <= nth (Nat.min (Z.to_nat (Qfloor pos) + 1) (length s - 1)) s 0)%Q.
Proof.
  intros H0 H1. destruct (floor_range pos H0 H1) as [Hlo Hf0].
  unfold interp.
  set (lo := Z.to_nat (Qfloor pos)) in *.
  set (hi := Nat.min (lo + 1) (length s - 1)).
  assert (nth lo s 0 <= nth hi s 0)%Q as Hab.
  { apply sorted_nth_le; [done|unfold hi; lia..]. }
  pose proof (Qfloor_le pos) as Hg0. pose proof (Qlt_floor pos) as Hg1.
  rewrite inject_Z_plus in Hg1.
  set (a := nth lo s 0%Q) in *. set (b := nth hi s 0%Q) in *.
  set (f := inject_Z (Qfloor pos)) in *.
  change (inject_Z 1) with 1%Q in Hg1.
  split; nra.
Qed.

Lemma interp_mono (p q : Q) :
  (0 <= p)%Q → (p <= q)%Q → (q <= top)%Q → (interp s p <= interp s q)%Q.
Proof.
  intros H0 Hpq H1.
  assert (0 <= q)%Q as H0q by lra. assert (p <= top)%Q as H1p by lra.
  destruct (floor_range p H0 H1p) as [Hlop Hfp].
  destruct (floor_range q H0q H1) as [Hloq Hfq].
  pose proof (Qfloor_resp_le _ _ Hpq) as Hfl.
  destruct (decide (Qfloor p = Qfloor q)) as [Heq|Hneq].
  - unfold interp. rewrite Heq.
    set (lo := Z.to_nat (Qfloor q)) in *.
    set (hi := Nat.min (lo + 1) (length s - 1)).
    assert (nth lo s 0 <= nth hi s 0)%Q as Hab.
    { apply sorted_nth_le; [done|unfold hi; lia..]. }
    set (a := nth lo s 0%Q) in *. set (b := nth hi s 0%Q) in *.
    set (f := inject_Z (Qfloor q)) in *. nra.
  - destruct (interp_bounds p H0 H1p) as [_ Hup].
    destruct (interp_bounds q H0q H1) as [Hlow _].
    eapply Qle_trans; [exact Hup|]. eapply Qle_trans; [|exact Hlow].
    apply sorted_nth_le; [done|lia..].
Qed.
End Interp.

Lemma Qltb_lt (x y : Q) : Qltb x y = true ↔ (x < y)%Q.
Proof.
  unfold Qltb. rewrite Qlt_alt. destruct (x ?= y)%Q; split; congruence.
Qed.

Lemma Qltb_ge (x y : Q) : Qltb x y = false ↔ (y <= x)%Q.
Proof.
  rewrite <- not_true_iff_false, Qltb_lt. split; [apply Qnot_lt_le|apply Qle_not_lt].
Qed.

Lemma clip_NaN (low up : float) : clip low up NaN = NaN.
Proof. unfold clip, fgt. simpl. by destruct up. Qed.

Lemma clip_Num (l u x : Q) :
  (l <= u)%Q →
  ∃ y, clip (Num l) (Num u) (Num x) = Num y ∧ (l <= y)%Q ∧ (y <= u)%Q.
Proof.
  intros Hlu. unfold clip, fgt. simpl.
  destruct (Qltb x l) eqn:Hxl; simpl.
  - destruct (Qltb u l) eqn:Hul.
    + apply Qltb_lt in Hul. lra.
    + exists l. split; [done|]. lra.
  - apply Qltb_ge in Hxl. destruct (Qltb u x) eqn:Hux.
    + exists u. split; [done|]. lra.
    + apply Qltb_ge in Hux. exists x. done.
Qed.

Lemma clip_inside (low up x : float) :
  flt x low = false → fgt x up = false → clip low up x = x.
Proof. unfold clip. intros -> Hup. by rewrite Hup. Qed.

Lemma clip_changed (low up x : float) :
  clip low up x ≠ x → flt x low = true ∨ fgt x up = true.
Proof.
  intros Hne. destruct (flt x low) eqn:Hl; [by left|].
  destruct (fgt x up) eqn:Hu; [by right|].
  by rewrite clip_inside in Hne.
Qed.

Lemma dropna_nil_NaN (xs : list float) (i : nat) (q : Q) :
  dropna xs = [] → xs !! i ≠ Some (Num q).
Proof.
  unfold dropna. revert i. induction xs as [|x xs IH]; intros i Hd Hi; [done|].
  simpl in Hd. destruct x as [p|]; [done|].
  destruct i as [|i]; simpl in Hi; [done|]. by eapply IH.
Qed.

Lemma merge_sort_length (xs : list Q) : length (merge_sort Qle xs) = length xs.
Proof. apply Permutation_length, merge_sort_Permutation. Qed.

(** The two percentiles of a non-empty sample are numbers, in order. *)
Lemma percentiles_ordered (qs : list Q) :
  qs ≠ [] →
  ∃ q1 q3, linear_quantile qs (1 # 100) = Num q1 ∧
           linear_quantile qs (99 # 100) = Num q3 ∧ (q1 <= q3)%Q.
Proof.
  intros Hne. rewrite !linear_quantile_interp by done.
  eexists _, _. split; [done|]. split; [done|].
  assert (0 < length (merge_sort Qle qs)) as Hlen.
  { rewrite merge_sort_length. destruct qs; [done|simpl; lia]. }
  assert (0 <= inject_Z (Z.of_nat (length (merge_sort Qle qs) - 1)))%Q as Hn.
  { change 0%Q with (inject_Z 0). rewrite <- Zle_Qle. lia. }
  apply interp_mono; [apply StronglySorted_merge_sort; apply _|done|lra..].
Qed.

Lemma outlier_thresholds_values df v xs :
  getitem df v = Some (map CFloat xs) →
  outlier_thresholds df v
  = Some (let quartile1 := linear_quantile (dropna xs) (1 # 100) in
          let quartile3 := linear_quantile (dropna xs) (99 # 100) in
          let iqr := fsub quartile3 quartile1 in
          (fsub quartile1 (fmul (Num (3 # 2)) iqr),
           fadd quartile3 (fmul (Num (3 # 2)) iqr))).
Proof.
  intros Hs. unfold outlier_thresholds, quantile. rewrite Hs. simpl.
  rewrite floats_CFloat. simpl. done.
Qed.

Lemma capped_value_spec (df df' : DataFrame) (v : string)
    (s s' : list cell) (i : nat) (x : Q) :
  replace_with_thresholds df v = Some df' →
  getitem df v = Some s →
  getitem df' v = Some s' →
  s' !! i = Some (CFloat (Num x)) →
  ∃ Q1 Q3 : Q,
    quantile s (1 # 100) = Some (Num Q1) ∧
    quantile s (99 # 100) = Some (Num Q3) ∧
    let IQR := (Q3 - Q1)%Q in
    let low_limit := (Q1 - (3 # 2) * IQR)%Q in
    let up_limit := (Q3 + (3 # 2) * IQR)%Q in
    outlier_thresholds df v = Some (Num low_limit, Num up_limit) ∧
    (low_limit <= x)%Q ∧ (x <= up_limit)%Q.
Proof.
  intros Hr Hs Hs' Hi.
  apply replace_with_thresholds_Some in Hr as (xs & low & up & Hxs & Ht & ->).
  rewrite Hs in Hxs. injection Hxs as ->.
  unfold getitem in Hs'. simpl in Hs'. rewrite lookup_insert_eq in Hs'.
  injection Hs' as <-.
  rewrite !list_lookup_fmap in Hi.
  destruct (xs !! i) as [x0|] eqn:Hx0; simpl in Hi; [|done].
  injection Hi as Hc.
  destruct x0 as [x0|]; [|by rewrite clip_NaN in Hc].
  assert (dropna xs ≠ []) as Hne.
  { intros Hnil. by eapply dropna_nil_NaN. }
  destruct (percentiles_ordered _ Hne) as (q1 & q3 & Hq1 & Hq3 & Hle).
  rewrite (outlier_thresholds_values _ _ _ Hs), Hq1, Hq3 in Ht. simpl in Ht.
  injection Ht as <- <-.
  exists q1, q3. unfold quantile. rewrite floats_CFloat. simpl.
  rewrite Hq1, Hq3. split; [done|]. split; [done|]. simpl.
  rewrite (outlier_thresholds_values _ _ _ Hs), Hq1, Hq3. simpl. split; [done|].
  destruct (clip_Num (q1 - (3 # 2) * (q3 - q1)) (q3 + (3 # 2) * (q3 - q1)) x0)
    as (y & Hy & Hly & Hyu); [lra|].
  rewrite Hy in Hc. injection Hc as ->. done.
Qed.

(** Claim C4. After [replace_with_thresholds] has run on a field, every
    value [x] of that field lies between the two limits, [low_limit <= x <=
    up_limit], where Q1 and Q3 are the 1st and 99th percentiles of the field
    before capping, IQR = Q3 - Q1, low_limit = Q1 - 1.5 * IQR and up_limit =
    Q3 + 1.5 * IQR. A missing entry (NaN) holds no value and stays missing. *)
Theorem capped_values_within_limits (df df' : DataFrame) (v : string)
    (s s' : list cell) (i : nat) (x : Q) :
  replace_with_thresholds df v = Some df' →
  getitem df v = Some s →
  getitem df' v = Some s' →
  s' !! i = Some (CFloat (Num x)) →
  ∃ Q1 Q3 : Q,
    quantile s (1 # 100) = Some (Num Q1) ∧
    quantile s (99 # 100) = Some (Num Q3) ∧
    let IQR := (Q3 - Q1)%Q in
    let low_limit := (Q1 - (3 # 2) * IQR)%Q in
    let up_limit := (Q3 + (3 # 2) * IQR)%Q in
    outlier_thresholds df v = Some (Num low_limit, Num up_limit) ∧
    (low_limit <= x)%Q ∧ (x <= up_limit)%Q.
Proof. apply capped_value_spec. Qed.

(** 0, 1, ..., 99 and 1000: the last value is capped at 246. *)
Lemma capped_values_within_limits_witness :
  ∃ (df' : DataFrame) (s s' : list cell) (x : Q),
    replace_with_thresholds df101 "Purchase" = Some df' ∧
    getitem df101 "Purchase" = Some s ∧
    getitem df' "Purchase" = Some s' ∧
    s' !! 100 = Some (CFloat (Num x)) ∧ (x == 246)%Q ∧
    ∃ Q1 Q3 : Q,
      quantile s (1 # 100) = Some (Num Q1) ∧
      quantile s (99 # 100) = Some (Num Q3) ∧
      let IQR := (Q3 - Q1)%Q in
      let low_limit := (Q1 - (3 # 2) * IQR)%Q in
      let up_limit := (Q3 + (3 # 2) * IQR)%Q in
      outlier_thresholds df101 "Purchase" = Some (Num low_limit, Num up_limit) ∧
      (low_limit <= x)%Q ∧ (x <= up_limit)%Q.
Proof.
  eexists _, _, _, _. split; [vm_compute; reflexivity|].
  split; [vm_compute; reflexivity|]. split; [vm_compute; reflexivity|].
  split; [vm_compute; reflexivity|]. split; [done|].
  eapply (capped_values_within_limits df101 _ "Purchase" _ _ 100).
  - vm_compute. reflexivity.
  - vm_compute. reflexivity.
  - vm_compute. reflexivity.
  - vm_compute. reflexivity.
Defined.

(** Claim C8. When the 1st and 99th percentiles of a field coincide (the
    interquartile range is zero), both limits equal Q1 and
    [replace_with_thresholds] maps every value of the field to Q1: the
    field keeps its length, every entry that held a value holds a value
    equal to Q1 afterwards, and no other value is left in the field. *)
Theorem zero_iqr_collapses_field (df df' : DataFrame) (v : string)
    (s s' : list cell) (Q1 Q3 : Q) :
  getitem df v = Some s →
  quantile s (1 # 100) = Some (Num Q1) →
  quantile s (99 # 100) = Some (Num Q3) →
  (Q3 - Q1 == 0)%Q →
  replace_with_thresholds df v = Some df' →
  getitem df' v = Some s' →
  (∃ low_limit up_limit,
     outlier_thresholds df v = Some (Num low_limit, Num up_limit) ∧
     (low_limit == Q1)%Q ∧ (up_limit == Q1)%Q) ∧
  (∀ i x, s' !! i = Some (CFloat (Num x)) → (x == Q1)%Q) ∧
  length s' = length s ∧
  (∀ i x, s !! i = Some (CFloat (Num x)) →
     ∃ y, s' !! i = Some (CFloat (Num y)) ∧ (y == Q1)%Q).
Proof.
  intros Hs Hq1 Hq3 Hiqr Hr Hs'.
  assert (∀ i x, s' !! i = Some (CFloat (Num x)) →
    outlier_thresholds df v
    = Some (Num (Q1 - (3 # 2) * (Q3 - Q1)), Num (Q3 + (3 # 2) * (Q3 - Q1)))
    ∧ (Q1 - (3 # 2) * (Q3 - Q1) <= x)%Q ∧ (x <= Q3 + (3 # 2) * (Q3 - Q1))%Q)
    as Hall.
  { intros i x Hi.
    destruct (capped_value_spec _ _ _ _ _ _ _ Hr Hs Hs' Hi)
      as (q1 & q3 & Hq1' & Hq3' & Hb).
    rewrite Hq1 in Hq1'. rewrite Hq3 in Hq3'.
    injection Hq1' as <-. injection Hq3' as <-. exact Hb. }
  apply replace_with_thresholds_Some in Hr as (xs & low & up & Hxs & Ht & ->).
  rewrite Hs in Hxs. injection Hxs as ->.
  assert (low = Num (Q1 - (3 # 2) * (Q3 - Q1)) ∧
          up = Num (Q3 + (3 # 2) * (Q3 - Q1))) as [-> ->].
  { rewrite (outlier_thresholds_values _ _ _ Hs) in Ht.
    unfold quantile in Hq1, Hq3. rewrite floats_CFloat in Hq1, Hq3.
    simpl in Hq1, Hq3. injection Hq1 as Hq1. injection Hq3 as Hq3.
    rewrite Hq1, Hq3 in Ht. simpl in Ht. by injection Ht as <- <-. }
  unfold getitem in Hs'. simpl in Hs'. rewrite lookup_insert_eq in Hs'.
  injection Hs' as <-.
  split; [|split; [|split]].
  - exists (Q1 - (3 # 2) * (Q3 - Q1))%Q, (Q3 + (3 # 2) * (Q3 - Q1))%Q.
    split; [done|split; lra].
  - intros i x Hi. destruct (Hall i x Hi) as (_ & Hl & Hu). lra.
  - by rewrite !length_map.
  - intros i x Hi. rewrite !list_lookup_fmap in *.
    destruct (xs !! i) as [x0|]; simpl in *; [|done]. injection Hi as ->.
    destruct (clip_Num (Q1 - (3 # 2) * (Q3 - Q1)) (Q3 + (3 # 2) * (Q3 - Q1)) x)
      as (y & -> & Hl & Hu); [lra|].
    exists y. split; [done|lra].
Qed.

(** -7, ninety-nine times 5, and 1000: all 101 values become 5. *)
Lemma zero_iqr_collapses_field_witness :
  ∃ (df' : DataFrame) (s s' : list cell) (Q1 first last : Q),
    replace_with_thresholds df_flat "Purchase" = Some df' ∧
    getitem df' "Purchase" = Some s' ∧
    getitem df_flat "Purchase" = Some s ∧
    quantile s (1 # 100) = Some (Num Q1) ∧ (Q1 == 5)%Q ∧
    s !! 0 = Some (CFloat (Num (-7))) ∧ s !! 100 = Some (CFloat (Num 1000)) ∧
    s' !! 0 = Some (CFloat (Num first)) ∧ (first == 5)%Q ∧
    s' !! 100 = Some (CFloat (Num last)) ∧ (last == 5)%Q ∧
    ((∃ low_limit up_limit,
        outlier_thresholds df_flat "Purchase"
        = Some (Num low_limit, Num up_limit) ∧
        (low_limit == Q1)%Q ∧ (up_limit == Q1)%Q) ∧
     (∀ i x, s' !! i = Some (CFloat (Num x)) → (x == Q1)%Q) ∧
     length s' = length s ∧
     (∀ i x, s !! i = Some (CFloat (Num x)) →
        ∃ y, s' !! i = Some (CFloat (Num y)) ∧ (y == Q1)%Q)).
Proof.
  eexists _, _, _, _, _, _. split; [vm_compute; reflexivity|].
  split; [vm_compute; reflexivity|].
  split; [vm_compute; reflexivity|].
  split; [vm_compute; reflexivity|].
  split; [done|].
  split; [reflexivity|]. split; [reflexivity|].
  split; [vm_compute; reflexivity|]. split; [done|].
  split; [vm_compute; reflexivity|]. split; [done|].
  eapply (zero_iqr_collapses_field df_flat _ "Purchase").
  - vm_compute. reflexivity.
  - vm_compute. reflexivity.
  - vm_compute. reflexivity.
  - done.
  - vm_compute. reflexivity.
  - vm_compute. reflexivity.
Defined.

(** Claim C10. [replace_with_thresholds] keeps the row count, every column
    other than the target field, and every value of the target field that
    already lies within [low_limit, up_limit]; an entry that it rewrites held
    a value strictly below [low_limit] or strictly above [up_limit]. *)
Theorem replace_with_thresholds_frame (df df' : DataFrame) (v : string)
    (low_limit up_limit : float) :
  outlier_thresholds df v = Some (low_limit, up_limit) →
  replace_with_thresholds df v = Some df' →
  nrows df' = nrows df ∧
  (∀ other, other ≠ v → getitem df' other = getitem df other) ∧
  ∃ s s', getitem df v = Some s ∧ getitem df' v = Some s' ∧
    length s' = length s ∧
    (∀ i x l u, s !! i = Some (CFloat (Num x)) →
       low_limit = Num l → up_limit = Num u → (l <= x)%Q → (x <= u)%Q →
       s' !! i = Some (CFloat (Num x))) ∧
    (∀ i c, s !! i = Some c → s' !! i ≠ Some c →
       ∃ x l u, c = CFloat (Num x) ∧ low_limit = Num l ∧ up_limit = Num u ∧
                ((x < l)%Q ∨ (u < x)%Q)).
Proof.
  intros Ht Hr.
  apply replace_with_thresholds_Some in Hr as (xs & low & up & Hxs & Ht' & ->).
  rewrite Ht in Ht'. injection Ht' as <- <-.
  split; [done|]. split.
  { intros other Hne. unfold getitem. simpl. by rewrite lookup_insert_ne. }
  exists (map CFloat xs), (map CFloat (map (clip low_limit up_limit) xs)).
  split; [done|]. split; [unfold getitem; simpl; by rewrite lookup_insert_eq|].
  split; [by rewrite !length_map|]. split.
  - intros i x l u Hi -> -> Hl Hu.
    rewrite !list_lookup_fmap in *.
    destruct (xs !! i) as [x0|]; simpl in *; [|done].
    injection Hi as ->. rewrite clip_inside; [done|simpl..].
    + by apply Qltb_ge.
    + unfold fgt. simpl. by apply Qltb_ge.
  - intros i c Hi Hne.
    rewrite !list_lookup_fmap in *.
    destruct (xs !! i) as [x0|]; simpl in *; [|done].
    injection Hi as <-.
    assert (clip low_limit up_limit x0 ≠ x0) as Hch by congruence.
    apply clip_changed in Hch.
    rewrite (outlier_thresholds_values _ _ _ Hxs) in Ht. simpl in Ht.
    destruct (linear_quantile (dropna xs) (1 # 100)) as [q1|],
             (linear_quantile (dropna xs) (99 # 100)) as [q3|];
      simpl in Ht; injection Ht as <- <-;
      destruct x0 as [x0|]; unfold fgt in Hch; simpl in Hch;
      try (destruct Hch; discriminate).
    exists x0. eexists _, _. split; [done|]. split; [done|]. split; [done|].
    rewrite <- !Qltb_lt. done.
Qed.

(** The frame property on 0, 1, ..., 99 and 1000. *)
Lemma replace_with_thresholds_frame_witness :
  ∃ df' low_limit up_limit,
    outlier_thresholds df101 "Purchase" = Some (low_limit, up_limit) ∧
    nrows df' = nrows df101 ∧
    (∀ other, other ≠ "Purchase" → getitem df' other = getitem df101 other) ∧
    ∃ s s', getitem df101 "Purchase" = Some s ∧
      getitem df' "Purchase" = Some s' ∧
      length s' = length s ∧
      (∀ i x l u, s !! i = Some (CFloat (Num x)) →
         low_limit = Num l → up_limit = Num u → (l <= x)%Q → (x <= u)%Q →
         s' !! i = Some (CFloat (Num x))) ∧
      (∀ i c, s !! i = Some c → s' !! i ≠ Some c →
         ∃ x l u, c = CFloat (Num x) ∧ low_limit = Num l ∧ up_limit = Num u ∧
                  ((x < l)%Q ∨ (u < x)%Q)).
Proof.
  eexists _, _, _. split; [vm_compute; reflexivity|].
  eapply (replace_with_thresholds_frame df101 _ "Purchase").
  - vm_compute. reflexivity.
  - vm_compute. reflexivity.
Defined.

Lemma replace_with_thresholds_eval df v xs low up :
  getitem df v = Some (map CFloat xs) →
  outlier_thresholds df v = Some (low, up) →
  replace_with_thresholds df v
  = Some (mkDataFrame (index df)
            (<[v := map CFloat (map (clip low up) xs)]> (columns df))).
Proof.
  intros Hs Ht. unfold replace_with_thresholds. rewrite Ht. simpl.
  rewrite Hs. simpl. unfold series_lt. rewrite floats_CFloat. simpl.
  unfold loc_set. rewrite Hs. simpl.
  unfold getitem. simpl. rewrite lookup_insert_eq. simpl.
  rewrite zip_with_mask.
  unfold series_gt. rewrite floats_CFloat. simpl.
  rewrite zip_with_mask, insert_insert_eq, !map_map. done.
Qed.

(** The capper fails only on a missing or non-numeric column. *)
Lemma replace_with_thresholds_succeeds df v xs :
  getitem df v = Some (map CFloat xs) → is_Some (replace_with_thresholds df v).
Proof.
  intros Hs. erewrite replace_with_thresholds_eval;
    [eauto|exact Hs|by apply outlier_thresholds_values].
Qed.

Lemma thresholds_ordered df v xs (low up : Q) :
  getitem df v = Some (map CFloat xs) →
  outlier_thresholds df v = Some (Num low, Num up) →
  (low <= up)%Q.
Proof.
  intros Hs Ht. rewrite (outlier_thresholds_values _ _ _ Hs) in Ht.
  destruct (dropna xs) as [|q qs] eqn:Hd; [done|].
  destruct (percentiles_ordered (q :: qs)) as (q1 & q3 & Hq1 & Hq3 & Hle); [done|].
  rewrite Hq1, Hq3 in Ht. simpl in Ht. injection Ht as <- <-. lra.
Qed.

Lemma clip_stable (low up low' up' : Q) (x : float) :
  (low <= up)%Q → (low' <= low)%Q → (up <= up')%Q →
  clip (Num low') (Num up') (clip (Num low) (Num up) x)
  = clip (Num low) (Num up) x.
Proof.
  intros Hlu Hl Hu. destruct x as [x|]; [|by rewrite !clip_NaN].
  destruct (clip_Num low up x Hlu) as (y & -> & Hy1 & Hy2).
  apply clip_inside; [|unfold fgt]; simpl; apply Qltb_ge; lra.
Qed.

(** Claim C3, amended. A second application of [replace_with_thresholds]
    changes nothing whenever the limits recomputed from the capped values
    are no tighter than the first ones ([low' <= low] and [up <= up']). *)
Theorem second_capping_no_change (df df1 : DataFrame) (v : string)
    (low up low' up' : Q) :
  replace_with_thresholds df v = Some df1 →
  outlier_thresholds df v = Some (Num low, Num up) →
  outlier_thresholds df1 v = Some (Num low', Num up') →
  (low' <= low)%Q → (up <= up')%Q →
  replace_with_thresholds df1 v = Some df1.
Proof.
  intros Hr Ht Ht1 Hl Hu.
  apply replace_with_thresholds_Some in Hr as (xs & l & u & Hxs & Ht' & ->).
  rewrite Ht in Ht'. injection Ht' as <- <-.
  pose proof (thresholds_ordered _ _ _ _ _ Hxs Ht) as Hlu.
  erewrite replace_with_thresholds_eval; [|unfold getitem; simpl; apply lookup_insert_eq|exact Ht1].
  simpl. rewrite insert_insert_eq.
  assert (map (clip (Num low') (Num up')) (map (clip (Num low) (Num up)) xs)
          = map (clip (Num low) (Num up)) xs) as ->; [|done].
  rewrite map_map. apply map_ext. intros x. by apply clip_stable.
Qed.

(** Claim C3 fails as stated. On eighty zeros followed by 100 the 99th
    percentile is 20 and the upper limit 50, so the first pass turns 100 into
    50; the percentile recomputed from the capped values is 10 and the limit
    25, so the second pass turns 50 into 25. *)
Lemma capping_not_idempotent :
  ∃ x1 x2 : Q,
    (df1 ← cap_once df81 "Purchase"; s ← getitem df1 "Purchase"; s !! 80)
    = Some (CFloat (Num x1)) ∧
    (df2 ← cap_twice df81 "Purchase"; s ← getitem df2 "Purchase"; s !! 80)
    = Some (CFloat (Num x2)) ∧
    (x1 == 50)%Q ∧ (x2 == 25)%Q ∧
    cap_twice df81 "Purchase" ≠ cap_once df81 "Purchase".
Proof.
  eexists _, _. split; [vm_compute; reflexivity|].
  split; [vm_compute; reflexivity|].
  split; [done|]. split; [done|].
  intros Heq.
  apply (f_equal (λ o, df ← o; s ← getitem df "Purchase"; s !! 80)) in Heq.
  vm_compute in Heq. discriminate.
Qed.

(** On 0, 1, ..., 99 and 1000 the first pass caps 1000 at 246 and leaves
    both percentiles where they were; the second pass changes nothing. *)
Lemma second_capping_no_change_witness :
  ∃ df1, replace_with_thresholds df101 "Purchase" = Some df1 ∧
         (df1 ← Some df1; s ← getitem df1 "Purchase"; s !! 100)
         ≠ (s ← getitem df101 "Purchase"; s !! 100) ∧
         replace_with_thresholds df1 "Purchase" = Some df1.
Proof.
  eexists. split; [vm_compute; reflexivity|]. split; [vm_compute; discriminate|].
  eapply (second_capping_no_change df101).
  - vm_compute. reflexivity.
  - vm_compute. reflexivity.
  - vm_compute. reflexivity.
  - done.
  - done.
Defined.

(** ** The tests *)

Lemma bind_raise_or_return {A B} (o : option A) (f : A → Script B) (w : World) :
  (raise_or_return o ≫= f) w
  = match o with Some x => f x w | None => (w, None) end.
Proof. unfold mbind, script_bind, raise_or_return. by destruct o. Qed.

Lemma bind_call {A B} (c : Call) (o : option A) (f : A → Script B) (w : World) :
  (call c o ≫= f) w
  = match o with
    | Some x => f x (mkWorld (stdout w) (calls w ++ [c]))
    | None => (mkWorld (stdout w) (calls w ++ [c]), None)
    end.
Proof. unfold mbind, script_bind, call. by destruct o. Qed.

Lemma bind_print {B} (l : Line) (f : unit → Script B) (w : World) :
  (print l ≫= f) w = f tt (mkWorld (stdout w ++ [l]) (calls w)).
Proof. reflexivity. Qed.

Lemma if_print (b : bool) (l1 l2 : Line) :
  (if b then print l1 else print l2) = print (if b then l1 else l2).
Proof. by destruct b. Qed.

Section Task2Facts.
Context `{stats : ScipyStats}.

(** The run as a cascade of its failure points. *)
Lemma ab_test_unfold (df : DataFrame) (w : World) :
  ab_test df w =
  match loc_where df "Group" "C" "Purchase" with
  | None => (w, None)
  | Some c =>
    let w1 := mkWorld (stdout w) (calls w ++ [CallShapiro c]) in
    match shapiro c with
    | None => (w1, None)
    | Some (_, p1) =>
      let w2 := mkWorld (stdout w1 ++ [normality_line p1]) (calls w1) in
      match loc_where df "Group" "T" "Purchase" with
      | None => (w2, None)
      | Some t =>
        let w3 := mkWorld (stdout w2) (calls w2 ++ [CallShapiro t]) in
        match shapiro t with
        | None => (w3, None)
        | Some (_, p2) =>
          let w4 := mkWorld (stdout w3 ++ [normality_line p2]) (calls w3) in
          let w5 := mkWorld (stdout w4) (calls w4 ++ [CallLevene c t]) in
          match levene c t with
          | None => (w5, None)
          | Some (_, p3) =>
            let w6 := mkWorld (stdout w5 ++ [homogeneity_line p3]) (calls w5) in
            let w7 := mkWorld (stdout w6) (calls w6 ++ [CallTtestInd c t true]) in
            match ttest_ind c t true with
            | None => (w7, None)
            | Some (test_stat, p_value) =>
              (mkWorld (stdout w7 ++ [decision_line p_value;
                                      Fmt "t statistic = " test_stat;
                                      Fmt "p value = " p_value])
                       (calls w7), Some tt)
            end
          end
        end
      end
    end
  end.
Proof.
  unfold ab_test. rewrite bind_raise_or_return.
  destruct (loc_where df "Group" "C" "Purchase") as [c|]; [|done].
  rewrite bind_call. destruct (shapiro c) as [[s1 p1]|]; [|done].
  cbv beta iota. rewrite if_print, bind_print, bind_raise_or_return.
  destruct (loc_where df "Group" "T" "Purchase") as [t|]; [|done].
  rewrite bind_call. destruct (shapiro t) as [[s2 p2]|]; [|done].
  cbv beta iota. rewrite if_print, bind_print, !bind_raise_or_return, bind_call.
  destruct (levene c t) as [[s3 p3]|]; [|done].
  cbv beta iota. rewrite if_print, bind_print, !bind_raise_or_return, bind_call.
  destruct (ttest_ind c t true) as [[test_stat p_value]|]; [|done].
  cbv beta iota. unfold decision_line.
  destruct (fgt p_value (Num (5 # 100))); rewrite !bind_print; unfold print;
    simpl; by rewrite <- !app_assoc.
Qed.
End Task2Facts.

Lemma elem_of_prefix {A} (x : A) (l1 l2 : list A) :
  l1 `prefix_of` l2 → x ∈ l1 → x ∈ l2.
Proof. intros [k ->] Hin. apply elem_of_app. by left. Qed.

Section Task2Claims.
Context `{stats : ScipyStats}.

Lemma run_unfold (dfc dft : DataFrame) :
  run dfc dft =
  match prepare dfc dft with
  | None => (mkWorld [] [], None)
  | Some df => ab_test df (mkWorld [] [])
  end.
Proof. unfold run, script. by rewrite bind_raise_or_return. Qed.

Lemma run_complete (dfc dft : DataFrame) (w : World) :
  run dfc dft = (w, Some tt) →
  ∃ df c t s1 p1 s2 p2 s3 p3 test_stat p_value,
    prepare dfc dft = Some df ∧
    loc_where df "Group" "C" "Purchase" = Some c ∧
    loc_where df "Group" "T" "Purchase" = Some t ∧
    shapiro c = Some (s1, p1) ∧ shapiro t = Some (s2, p2) ∧
    levene c t = Some (s3, p3) ∧
    ttest_ind c t true = Some (test_stat, p_value) ∧
    stdout w = [normality_line p1; normality_line p2; homogeneity_line p3;
                decision_line p_value; Fmt "t statistic = " test_stat;
                Fmt "p value = " p_value] ∧
    calls w = [CallShapiro c; CallShapiro t; CallLevene c t;
               CallTtestInd c t true].
Proof.
  rewrite run_unfold. destruct (prepare dfc dft) as [df|] eqn:Hp; [|done].
  rewrite ab_test_unfold.
  destruct (loc_where df "Group" "C" "Purchase") as [c|] eqn:Hgc; [|done].
  destruct (shapiro c) as [[s1 p1]|] eqn:Hc; [|done].
  destruct (loc_where df "Group" "T" "Purchase") as [t|] eqn:Hgt; [|done].
  destruct (shapiro t) as [[s2 p2]|] eqn:Ht; [|done].
  destruct (levene c t) as [[s3 p3]|] eqn:Hl; [|done].
  destruct (ttest_ind c t true) as [[test_stat p_value]|] eqn:Htt; [|done].
  simpl. intros [= <-]. exists df, c, t, s1, p1, s2, p2, s3, p3, test_stat, p_value.
  by repeat split.
Qed.

Lemma run_calls_prefix (dfc dft : DataFrame) :
  ∃ c t, calls (run dfc dft).1
         `prefix_of` [CallShapiro c; CallShapiro t; CallLevene c t;
                      CallTtestInd c t true].
Proof.
  rewrite run_unfold. destruct (prepare dfc dft) as [df|];
    [|by exists [], []; eexists].
  rewrite ab_test_unfold.
  destruct (loc_where df "Group" "C" "Purchase") as [c|];
    [|by exists [], []; eexists].
  destruct (shapiro c) as [[s1 p1]|]; [|by exists c, []; eexists].
  destruct (loc_where df "Group" "T" "Purchase") as [t|];
    [|by exists c, []; eexists].
  exists c, t.
  destruct (shapiro t) as [[s2 p2]|]; [|by eexists].
  destruct (levene c t) as [[s3 p3]|]; [|by eexists].
  destruct (ttest_ind c t true) as [[test_stat p_value]|]; by eexists.
Qed.


(** Claim C2, amended. The t-test is always called with [equal_var=True]:
    no run calls it with any other flag, whatever p-value Levene returned;
    the Levene outcome is only printed. *)
Theorem ttest_equal_var_is_always_true (dfc dft : DataFrame) :
  (∀ x y equal_var,
     CallTtestInd x y equal_var ∈ calls (run dfc dft).1 → equal_var = true) ∧
  ∀ w, run dfc dft = (w, Some tt) →
    ∃ c t stat p,
      levene c t = Some (stat, p) ∧
      CallLevene c t ∈ calls w ∧ CallTtestInd c t true ∈ calls w.
Proof.
  split.
  - intros x y ev Hin. destruct (run_calls_prefix dfc dft) as (c & t & Hp).
    apply (elem_of_prefix _ _ _ Hp) in Hin.
    rewrite !elem_of_cons, elem_of_nil in Hin. intuition congruence.
  - intros w Hw.
    destruct (run_complete _ _ _ Hw)
      as (df & c & t & s1 & p1 & s2 & p2 & s3 & p3 & ts & pv & Hrest).
    destruct Hrest as (_ & _ & _ & _ & _ & Hl & _ & _ & Hcalls).
    exists c, t, s3, p3. rewrite Hcalls, !elem_of_cons. tauto.
Qed.

End Task2Claims.



(** Claim C2 fails as stated. With a Levene p-value of 0.01 the t-test is
    still called with [equal_var=True], and never with [equal_var=False]. *)
Lemma heteroscedastic_groups_still_get_equal_var :
  let w := (run (stats := scipy_heteroscedastic) control_sheet test_sheet).1 in
  ∃ c t stat p,
    levene (ScipyStats := scipy_heteroscedastic) c t = Some (stat, Num p) ∧
    (p <= 5 # 100)%Q ∧
    calls w = [CallShapiro c; CallShapiro t; CallLevene c t;
               CallTtestInd c t true] ∧
    ¬ ∃ x y, CallTtestInd x y false ∈ calls w.
Proof.
  intros w.
  assert (∃ c t, calls w = [CallShapiro c; CallShapiro t; CallLevene c t;
                            CallTtestInd c t true]) as (c & t & Hcalls)
    by (eexists _, _; vm_compute; reflexivity).
  exists c, t. eexists _, _.
  split; [reflexivity|]. split; [done|]. split; [done|].
  rewrite Hcalls. intros (x & y & Hin).
  rewrite !elem_of_cons, elem_of_nil in Hin. intuition congruence.
Qed.

(** A complete run with heterogeneous variances. *)
Lemma ttest_equal_var_is_always_true_witness :
  ∃ w, run (stats := scipy_heteroscedastic) control_sheet test_sheet = (w, Some tt) ∧
       ∃ c t stat p,
         levene (ScipyStats := scipy_heteroscedastic) c t = Some (stat, p) ∧
         CallLevene c t ∈ calls w ∧ CallTtestInd c t true ∈ calls w.
Proof.
  eexists. split; [vm_compute; reflexivity|].
  apply (proj2 (ttest_equal_var_is_always_true (stats := scipy_heteroscedastic)
                  control_sheet test_sheet)).
  vm_compute. reflexivity.
Defined.


(** ** Labelling and concatenation *)

Lemma merge_groups_column (dfc dft : DataFrame) (name : string) :
  columns (merge_groups dfc dft) !! name
  = concat_columns (nrows dfc) (nrows dft)
      (<["Group" := replicate (nrows dfc) (CStr "C")]> (columns dfc) !! name)
      (<["Group" := replicate (nrows dft) (CStr "T")]> (columns dft) !! name).
Proof.
  unfold merge_groups, pd_concat, setitem. simpl. unfold nrows. simpl.
  rewrite lookup_merge.
  by destruct (_ !! name), (_ !! name).
Qed.

Lemma merge_groups_labels (dfc dft : DataFrame) :
  getitem (merge_groups dfc dft) "Group"
  = Some (replicate (nrows dfc) (CStr "C") ++ replicate (nrows dft) (CStr "T")).
Proof.
  unfold getitem. rewrite merge_groups_column, !lookup_insert_eq. done.
Qed.

(** Claim C5. For two group frames with the same columns, the combined
    frame has |Control| + |Test| rows, its index is 0, 1, ..., n - 1, its
    first |Control| rows are the Control rows in their order and the
    following rows are the Test rows in their order (each with its label). *)
Theorem merge_preserves_rows (dfc dft : DataFrame) :
  well_formed dfc → well_formed dft →
  dom (columns dfc) = dom (columns dft) →
  let df := merge_groups dfc dft in
  nrows df = nrows dfc + nrows dft ∧
  index df = seq 0 (nrows dfc + nrows dft) ∧
  (∀ i, i < nrows dfc → row df i = <["Group" := CStr "C"]> (row dfc i)) ∧
  (∀ j, j < nrows dft →
     row df (nrows dfc + j) = <["Group" := CStr "T"]> (row dft j)).
Proof.
  intros Hc Ht Hdom df.
  split; [unfold df, merge_groups, pd_concat, nrows; simpl; by rewrite length_seq|].
  split; [done|].
  assert (∀ name, name ≠ "Group" →
    (∃ xa xb, columns dfc !! name = Some xa ∧ columns dft !! name = Some xb ∧
       length xa = nrows dfc ∧ columns df !! name = Some (xa ++ xb)) ∨
    (columns dfc !! name = None ∧ columns dft !! name = None ∧
       columns df !! name = None)) as Hcols.
  { intros name Hne. unfold df. rewrite merge_groups_column.
    rewrite !lookup_insert_ne by done.
    destruct (columns dfc !! name) as [xa|] eqn:Ha.
    - assert (is_Some (columns dft !! name)) as [xb Hb].
      { apply elem_of_dom. rewrite <- Hdom. apply elem_of_dom. eauto. }
      left. exists xa, xb. rewrite Hb. split_and!; try done. by eapply Hc.
    - assert (columns dft !! name = None) as Hb.
      { apply not_elem_of_dom. rewrite <- Hdom. by apply not_elem_of_dom. }
      right. by rewrite Hb. }
  split.
  - intros i Hi. apply map_eq. intros name. unfold row.
    destruct (decide (name = "Group")) as [->|Hne].
    + rewrite lookup_insert_eq, lookup_omap.
      pose proof (merge_groups_labels dfc dft) as Hl. unfold getitem in Hl.
      fold df in Hl. rewrite Hl. simpl.
      rewrite lookup_app_l by (by rewrite length_replicate).
      by apply lookup_replicate_2.
    + rewrite lookup_insert_ne by done. rewrite !lookup_omap.
      destruct (Hcols name Hne) as [(xa & xb & Ha & Hb & Hlen & Hab)|(Ha & Hb & Hab)];
        rewrite Hab, Ha; simpl; [|done].
      apply lookup_app_l. by rewrite Hlen.
  - intros j Hj. apply map_eq. intros name. unfold row.
    destruct (decide (name = "Group")) as [->|Hne].
    + rewrite lookup_insert_eq, lookup_omap.
      pose proof (merge_groups_labels dfc dft) as Hl. unfold getitem in Hl.
      fold df in Hl. rewrite Hl. simpl.
      rewrite lookup_app_r by (rewrite length_replicate; lia).
      rewrite length_replicate.
      replace (nrows dfc + j - nrows dfc) with j by lia.
      by apply lookup_replicate_2.
    + rewrite lookup_insert_ne by done. rewrite !lookup_omap.
      destruct (Hcols name Hne) as [(xa & xb & Ha & Hb & Hlen & Hab)|(Ha & Hb & Hab)];
        rewrite Hab, Hb; simpl; [|done].
      rewrite lookup_app_r by lia.
      by replace (nrows dfc + j - length xa) with j by lia.
Qed.

(** The two sample sheets: nine rows, the sixth is the first Test row. *)
Lemma merge_preserves_rows_witness :
  let df := merge_groups control_sheet test_sheet in
  nrows df = 9 ∧
  row df 5 = <["Group" := CStr "T"]> (row test_sheet 0) ∧
  (nrows df = nrows control_sheet + nrows test_sheet ∧
   index df = seq 0 (nrows control_sheet + nrows test_sheet) ∧
   (∀ i, i < nrows control_sheet →
      row df i = <["Group" := CStr "C"]> (row control_sheet i)) ∧
   (∀ j, j < nrows test_sheet →
      row df (nrows control_sheet + j)
      = <["Group" := CStr "T"]> (row test_sheet j))).
Proof.
  intros df. split; [reflexivity|]. split; [by vm_compute|].
  apply (merge_preserves_rows control_sheet test_sheet).
  - apply (bool_decide_unpack _). vm_compute. exact I.
  - apply (bool_decide_unpack _). vm_compute. exact I.
  - apply (bool_decide_unpack _). vm_compute. exact I.
Defined.

(** Claim C6. Every row of the combined frame has a Group label: "C" for a
    row that came from the Control frame and "T" for a row that came from
    the Test frame. *)
Theorem merged_rows_are_labelled (dfc dft : DataFrame) (i : nat) :
  i < nrows (merge_groups dfc dft) →
  row (merge_groups dfc dft) i !! "Group"
  = Some (CStr (if decide (i < nrows dfc) then "C" else "T")).
Proof.
  intros Hi. unfold row. rewrite lookup_omap.
  pose proof (merge_groups_labels dfc dft) as Hl. unfold getitem in Hl.
  rewrite Hl. simpl.
  assert (nrows (merge_groups dfc dft) = nrows dfc + nrows dft) as Hn.
  { unfold merge_groups, pd_concat, nrows. simpl. by rewrite length_seq. }
  destruct (decide (i < nrows dfc)) as [Hlt|Hge].
  - rewrite lookup_app_l by (by rewrite length_replicate).
    by apply lookup_replicate_2.
  - rewrite lookup_app_r by (rewrite length_replicate; lia).
    rewrite length_replicate. apply lookup_replicate_2. lia.
Qed.

(** Row 2 comes from the control sheet, row 6 from the test sheet. *)
Lemma merged_rows_are_labelled_witness :
  row (merge_groups control_sheet test_sheet) 2 !! "Group" = Some (CStr "C") ∧
  row (merge_groups control_sheet test_sheet) 6 !! "Group" = Some (CStr "T").
Proof.
  split.
  - apply (merged_rows_are_labelled control_sheet test_sheet 2).
    vm_compute. lia.
  - apply (merged_rows_are_labelled control_sheet test_sheet 6).
    vm_compute. lia.
Defined.

Lemma select_own_label (g : string) (xs ys : list cell) (m : list bool) :
  select (series_eq (replicate (length xs) (CStr g)) g ++ m) (xs ++ ys)
  = xs ++ select m ys.
Proof.
  induction xs as [|x xs IH]; [done|].
  simpl. rewrite bool_decide_eq_true_2 by done. by rewrite IH.
Qed.

Lemma select_other_label (g g' : string) (xs ys : list cell) (m : list bool) :
  g ≠ g' →
  select (series_eq (replicate (length xs) (CStr g)) g' ++ m) (xs ++ ys)
  = select m ys.
Proof.
  intros Hne. induction xs as [|x xs IH]; [done|].
  simpl. rewrite bool_decide_eq_false_2 by congruence. exact IH.
Qed.

Lemma series_eq_app (xs ys : list cell) (g : string) :
  series_eq (xs ++ ys) g = series_eq xs g ++ series_eq ys g.
Proof. apply map_app. Qed.

Lemma select_all (g : string) (ys : list cell) :
  select (series_eq (replicate (length ys) (CStr g)) g) ys = ys.
Proof.
  induction ys as [|y ys IH]; [done|].
  simpl. rewrite bool_decide_eq_true_2 by done. by rewrite IH.
Qed.

Lemma select_none (g g' : string) (ys : list cell) :
  g ≠ g' → select (series_eq (replicate (length ys) (CStr g)) g') ys = [].
Proof.
  intros Hne. induction ys as [|y ys IH]; [done|].
  simpl. rewrite bool_decide_eq_false_2 by congruence. exact IH.
Qed.

(** The samples handed to the tests are the two Purchase columns. *)
Lemma group_purchases (dfc dft : DataFrame) (pc pt : list cell) :
  well_formed dfc → well_formed dft →
  getitem dfc "Purchase" = Some pc → getitem dft "Purchase" = Some pt →
  loc_where (merge_groups dfc dft) "Group" "C" "Purchase" = Some pc ∧
  loc_where (merge_groups dfc dft) "Group" "T" "Purchase" = Some pt.
Proof.
  intros Hc Ht Hpc Hpt.
  assert (getitem (merge_groups dfc dft) "Purchase" = Some (pc ++ pt)) as Hp.
  { unfold getitem in *. rewrite merge_groups_column.
    rewrite !lookup_insert_ne by done. by rewrite Hpc, Hpt. }
  unfold loc_where. rewrite merge_groups_labels, Hp. simpl.
  rewrite <- (Hc _ _ Hpc), <- (Ht _ _ Hpt), !series_eq_app.
  rewrite select_own_label, select_other_label by done.
  by rewrite select_none, select_all, app_nil_r.
Qed.

(** * Further properties of the capper *)

Lemma floats_None (s : list cell) :
  floats s = None ↔ ∃ str, CStr str ∈ s.
Proof.
  unfold floats. rewrite mapM_None, Exists_exists. split.
  - intros (c & Hin & Hc). destruct c as [x|str]; [done|]. by exists str.
  - intros (str & Hin). by exists (CStr str).
Qed.

Lemma floats_cases (s : list cell) :
  (∃ xs, s = map CFloat xs) ∨ (∃ str, CStr str ∈ s).
Proof.
  destruct (floats s) as [xs|] eqn:Hf.
  - left. exists xs. by apply floats_Some.
  - right. by apply floats_None.
Qed.

Lemma replace_with_thresholds_None (df : DataFrame) (v : string) :
  replace_with_thresholds df v = None ↔
  getitem df v = None ∨ ∃ col str, getitem df v = Some col ∧ CStr str ∈ col.
Proof.
  split.
  - intros Hr. destruct (getitem df v) as [col|] eqn:Hs; [right|by left].
    destruct (floats_cases col) as [(xs & ->)|(str & Hin)]; [|by exists col, str].
    destruct (replace_with_thresholds_succeeds _ _ _ Hs) as [df' Hdf'].
    congruence.
  - intros [Hs|(col & str & Hs & Hin)].
    + unfold replace_with_thresholds, outlier_thresholds. by rewrite Hs.
    + assert (floats col = None) as Hf by (apply floats_None; eauto).
      unfold replace_with_thresholds, outlier_thresholds, quantile.
      rewrite Hs. simpl. by rewrite Hf.
Qed.

(** Property X1. [outlier_thresholds], and with it
    [replace_with_thresholds], raises when the field is not a column of the
    frame (KeyError) or when the column holds a string (TypeError). *)
Theorem replace_with_thresholds_raises (df : DataFrame) (v : string) :
  getitem df v = None ∨ (∃ col str, getitem df v = Some col ∧ CStr str ∈ col) →
  outlier_thresholds df v = None ∧ replace_with_thresholds df v = None.
Proof.
  intros Hbad.
  assert (outlier_thresholds df v = None) as Ht.
  { destruct Hbad as [Hs|(col & str & Hs & Hin)].
    - unfold outlier_thresholds. by rewrite Hs.
    - assert (floats col = None) as Hf by (apply floats_None; eauto).
      unfold outlier_thresholds, quantile. rewrite Hs. simpl. by rewrite Hf. }
  split; [done|]. unfold replace_with_thresholds. by rewrite Ht.
Qed.

Lemma replace_with_thresholds_raises_witness :
  let df := frame 2 [("Purchase", fcol [3; 4]%Q);
                     ("Group", [CStr "C"; CStr "C"])] in
  (outlier_thresholds df "Earning" = None ∧
   replace_with_thresholds df "Earning" = None) ∧
  (outlier_thresholds df "Group" = None ∧
   replace_with_thresholds df "Group" = None).
Proof.
  intros df. split.
  - apply (replace_with_thresholds_raises df "Earning"). left. reflexivity.
  - apply (replace_with_thresholds_raises df "Group"). right.
    exists [CStr "C"; CStr "C"], "C". split; [reflexivity|]. left.
Defined.

Lemma dropna_replicate_NaN (n : nat) : dropna (replicate n NaN) = [].
Proof. induction n as [|n IH]; [done|exact IH]. Qed.

Lemma clip_NaN_limits (x : float) : clip NaN NaN x = x.
Proof. unfold clip, fgt. by destruct x. Qed.

Lemma insert_same_column (df : DataFrame) (v : string) (col : list cell) :
  getitem df v = Some col →
  mkDataFrame (index df) (<[v := col]> (columns df)) = df.
Proof.
  intros Hs. destruct df as [idx cols]. simpl in *. f_equal. by apply insert_id.
Qed.

(** Property X2. On a field without any value (a column with no rows, or
    with missing entries only) both limits are NaN and
    [replace_with_thresholds] returns the frame as it was. *)
Theorem capping_without_values (df : DataFrame) (v : string) (n : nat) :
  getitem df v = Some (replicate n (CFloat NaN)) →
  outlier_thresholds df v = Some (NaN, NaN) ∧
  replace_with_thresholds df v = Some df.
Proof.
  intros Hs.
  assert (replicate n (CFloat NaN) = map CFloat (replicate n NaN)) as Hrep.
  { clear. induction n as [|n IH]; [done|]. simpl. by rewrite IH. }
  rewrite Hrep in Hs.
  assert (outlier_thresholds df v = Some (NaN, NaN)) as Ht.
  { rewrite (outlier_thresholds_values _ _ _ Hs), dropna_replicate_NaN. done. }
  split; [done|].
  rewrite (replace_with_thresholds_eval _ _ _ _ _ Hs Ht). f_equal.
  rewrite (map_ext _ id) by apply clip_NaN_limits. rewrite map_id.
  by apply insert_same_column.
Qed.

Lemma capping_without_values_witness :
  let df := frame 3 [("Purchase", replicate 3 (CFloat NaN)); ("Click", fcol [1; 2; 3]%Q)] in
  outlier_thresholds df "Purchase" = Some (NaN, NaN) ∧
  replace_with_thresholds df "Purchase" = Some df.
Proof.
  intros df. apply (capping_without_values df "Purchase" 3). reflexivity.
Defined.

Lemma capped_column (df df' : DataFrame) (v : string) (s s' : list cell) :
  replace_with_thresholds df v = Some df' →
  getitem df v = Some s → getitem df' v = Some s' →
  ∃ xs low up, s = map CFloat xs ∧ s' = map CFloat (map (clip low up) xs) ∧
    outlier_thresholds df v = Some (low, up) ∧
    ((low = NaN ∧ up = NaN) ∨ ∃ l u, low = Num l ∧ up = Num u ∧ (l <= u)%Q).
Proof.
  intros Hr Hs Hs'.
  apply replace_with_thresholds_Some in Hr as (xs & low & up & Hxs & Ht & ->).
  rewrite Hs in Hxs. injection Hxs as ->.
  unfold getitem in Hs'. simpl in Hs'. rewrite lookup_insert_eq in Hs'.
  injection Hs' as <-.
  exists xs, low, up. split_and!; try done.
  pose proof Ht as Ht'.
  rewrite (outlier_thresholds_values _ _ _ Hs) in Ht'.
  destruct (dropna xs) as [|q qs] eqn:Hd.
  - left. simpl in Ht'. by injection Ht' as <- <-.
  - right. destruct (percentiles_ordered (q :: qs)) as (q1 & q3 & Hq1 & Hq3 & Hle);
      [done|].
    rewrite Hq1, Hq3 in Ht'. simpl in Ht'. injection Ht' as <- <-.
    eexists _, _. split; [done|]. split; [done|]. lra.
Qed.

(** Property X3. A value strictly below [low_limit] is replaced by
    [low_limit] itself, and a value strictly above [up_limit] by [up_limit]
    itself. *)
Theorem outliers_become_the_limits (df df' : DataFrame) (v : string)
    (s s' : list cell) (low_limit up_limit : Q) (i : nat) (x : Q) :
  replace_with_thresholds df v = Some df' →
  outlier_thresholds df v = Some (Num low_limit, Num up_limit) →
  getitem df v = Some s → getitem df' v = Some s' →
  s !! i = Some (CFloat (Num x)) →
  ((x < low_limit)%Q → s' !! i = Some (CFloat (Num low_limit))) ∧
  ((up_limit < x)%Q → s' !! i = Some (CFloat (Num up_limit))).
Proof.
  intros Hr Ht Hs Hs' Hi.
  destruct (capped_column _ _ _ _ _ Hr Hs Hs')
    as (xs & low & up & -> & -> & Ht' & Hord).
  rewrite Ht in Ht'. injection Ht' as <- <-.
  destruct Hord as [[? _]|(l & u & [= <-] & [= <-] & Hlu)]; [done|].
  rewrite !list_lookup_fmap in *.
  destruct (xs !! i) as [x0|]; simpl in *; [|done]. injection Hi as ->.
  unfold clip, fgt. simpl. split; intros Hx.
  - apply Qltb_lt in Hx. rewrite Hx. simpl.
    assert (Qltb up_limit low_limit = false) as -> by (apply Qltb_ge; lra). done.
  - assert (Qltb x low_limit = false) as -> by (apply Qltb_ge; lra).
    simpl. apply Qltb_lt in Hx. by rewrite Hx.
Qed.

Lemma outliers_become_the_limits_witness :
  ∃ (df' : DataFrame) (s s' : list cell) (low_limit up_limit : Q),
    replace_with_thresholds df101 "Purchase" = Some df' ∧
    outlier_thresholds df101 "Purchase" = Some (Num low_limit, Num up_limit) ∧
    getitem df101 "Purchase" = Some s ∧ getitem df' "Purchase" = Some s' ∧
    (up_limit == 246)%Q ∧ (up_limit < 1000)%Q ∧
    (((1000 < low_limit)%Q → s' !! 100 = Some (CFloat (Num low_limit))) ∧
     ((up_limit < 1000)%Q → s' !! 100 = Some (CFloat (Num up_limit)))).
Proof.
  eexists _, _, _, _, _.
  split; [vm_compute; reflexivity|]. split; [vm_compute; reflexivity|].
  split; [vm_compute; reflexivity|]. split; [vm_compute; reflexivity|].
  split; [done|]. split; [done|].
  eapply (outliers_become_the_limits df101 _ "Purchase" _ _ _ _ 100 1000).
  - vm_compute. reflexivity.
  - vm_compute. reflexivity.
  - vm_compute. reflexivity.
  - vm_compute. reflexivity.
  - vm_compute. reflexivity.
Defined.
Lemma Qfloor_percent (t k : Z) :
  Qfloor (inject_Z t * (k # 100)) = (t * k / 100)%Z.
Proof. reflexivity. Qed.

Lemma dropna_length (xs : list float) : length (dropna xs) ≤ length xs.
Proof.
  induction xs as [|x xs IH]; [done|].
  destruct x as [q|].
  - change (dropna (Num q :: xs)) with (q :: dropna xs). simpl. lia.
  - change (dropna (NaN :: xs)) with (dropna xs). simpl. lia.
Qed.

Lemma percentile_positions (s : list Q) :
  StronglySorted Qle s → 1 ≤ length s ≤ 100 →
  let top := length s - 1 in
  (interp s (inject_Z (Z.of_nat top) * (1 # 100)) <= nth (Nat.min 1 top) s 0)%Q ∧
  (nth (top - 1) s 0 <= interp s (inject_Z (Z.of_nat top) * (99 # 100)))%Q.
Proof.
  intros Hs Hn top. set (t := Z.of_nat top).
  assert (0 ≤ t ≤ 99)%Z as Ht by (unfold t, top; lia).
  assert (0 <= inject_Z t)%Q as HT0.
  { change 0%Q with (inject_Z 0). rewrite <- Zle_Qle. lia. }
  assert (0 < length s) as Hne by lia.
  split.
  - destruct (interp_bounds s Hs Hne (inject_Z t * (1 # 100))) as [_ Hup];
      [lra|fold top; fold t; lra|].
    rewrite Qfloor_percent in Hup.
    replace (t * 1 / 100)%Z with 0%Z in Hup by (symmetry; apply Z.div_small; lia).
    exact Hup.
  - destruct (interp_bounds s Hs Hne (inject_Z t * (99 # 100))) as [Hlow _];
      [lra|fold top; fold t; lra|].
    rewrite Qfloor_percent in Hlow.
    replace (Z.to_nat (t * 99 / 100)) with (top - 1) in Hlow; [exact Hlow|].
    destruct (decide (t = 0%Z)) as [Hz|Hnz].
    { rewrite Hz. unfold t in Hz. change (Z.to_nat (0 * 99 / 100)) with 0. lia. }
    replace (t * 99 / 100)%Z with (t - 1)%Z; [unfold t; lia|].
    apply (Z.div_unique _ _ _ (100 - t)); lia.
Qed.

Lemma filter_none (P : Q → Prop) `{∀ q, Decision (P q)} (l : list Q) :
  (∀ q, q ∈ l → ¬ P q) → filter P l = [].
Proof.
  induction l as [|q l IH]; intros Hl; [done|].
  rewrite filter_cons_False by (apply Hl; left).
  apply IH. intros q' Hq'. apply Hl. by right.
Qed.

(** In a sorted sample at most one element lies strictly below the second
    smallest, and at most one strictly above the second largest. *)
Lemma sorted_one_below (s : list Q) :
  StronglySorted Qle s →
  length (filter (λ q, Qltb q (nth (Nat.min 1 (length s - 1)) s 0%Q) = true) s) ≤ 1.
Proof.
  intros Hs. set (a := nth (Nat.min 1 (length s - 1)) s 0%Q).
  assert (filter (λ q, Qltb q a = true) (drop 1 s) = []) as Hnone.
  { apply filter_none. intros q Hq. apply list_elem_of_lookup in Hq as [k Hk].
    rewrite lookup_drop in Hk. pose proof (lookup_lt_Some _ _ _ Hk) as Hlt.
    rewrite <- (nth_lookup_Some _ _ 0%Q _ Hk).
    rewrite not_true_iff_false. apply Qltb_ge.
    apply sorted_nth_le; [done|lia..]. }
  pose proof (length_filter (λ q, Qltb q a = true) (take 1 s)) as Hl.
  rewrite length_take in Hl.
  rewrite <- (take_drop 1 s), filter_app, length_app, Hnone. simpl. lia.
Qed.

Lemma sorted_one_above (s : list Q) :
  StronglySorted Qle s →
  length (filter (λ q, Qltb (nth (length s - 1 - 1) s 0%Q) q = true) s) ≤ 1.
Proof.
  intros Hs. set (b := nth (length s - 1 - 1) s 0%Q).
  assert (filter (λ q, Qltb b q = true) (take (length s - 1) s) = []) as Hnone.
  { apply filter_none. intros q Hq. apply list_elem_of_lookup in Hq as [k Hk].
    pose proof (lookup_lt_Some _ _ _ Hk) as Hlt. rewrite length_take in Hlt.
    rewrite lookup_take_lt in Hk by lia.
    rewrite <- (nth_lookup_Some _ _ 0%Q _ Hk).
    rewrite not_true_iff_false. apply Qltb_ge.
    apply sorted_nth_le; [done|lia..]. }
  pose proof (length_filter (λ q, Qltb b q = true) (drop (length s - 1) s)) as Hl.
  rewrite length_drop in Hl.
  rewrite <- (take_drop (length s - 1) s), filter_app, length_app, Hnone.
  simpl. lia.
Qed.

Lemma dropna_app (xs ys : list float) : dropna (xs ++ ys) = dropna xs ++ dropna ys.
Proof. apply omap_app. Qed.

Lemma position_counted (P : Q → Prop) `{∀ q, Decision (P q)}
    (xs : list float) (i : nat) (x : Q) :
  xs !! i = Some (Num x) → P x →
  length (filter P (dropna xs))
  = length (filter P (dropna (take i xs)))
    + 1 + length (filter P (dropna (drop (S i) xs))).
Proof.
  intros Hi HP. rewrite <- (take_drop_middle _ _ _ Hi) at 1.
  rewrite dropna_app, filter_app, length_app.
  change (dropna (Num x :: drop (S i) xs)) with (x :: dropna (drop (S i) xs)).
  rewrite filter_cons_True by done. simpl. lia.
Qed.

Lemma two_positions_counted (P : Q → Prop) `{∀ q, Decision (P q)}
    (xs : list float) (i j : nat) (x y : Q) :
  i ≠ j → xs !! i = Some (Num x) → xs !! j = Some (Num y) → P x → P y →
  2 ≤ length (filter P (dropna xs)).
Proof.
  assert (∀ i j x y, i < j → xs !! i = Some (Num x) → xs !! j = Some (Num y) →
            P x → P y → 2 ≤ length (filter P (dropna xs))) as Hlt.
  { clear i j x y. intros i j x y Hij Hi Hj Hx Hy.
    rewrite (position_counted P xs i x Hi Hx).
    assert (drop (S i) xs !! (j - S i) = Some (Num y)) as Hj'.
    { rewrite lookup_drop. by replace (S i + (j - S i)) with j by lia. }
    rewrite (position_counted P _ _ y Hj' Hy). lia. }
  intros Hne Hi Hj Hx Hy.
  destruct (decide (i < j)); [by eapply (Hlt i j)|].
  eapply (Hlt j i); [lia|done..].
Qed.

(** Property X4. In a field of at most 100 rows only an extreme value can
    be capped: an entry that [replace_with_thresholds] rewrites held a value
    strictly smaller than every other value of the field, or strictly larger
    than every other value. So at most two entries change. *)
Theorem only_extremes_are_capped (df df' : DataFrame) (v : string)
    (s s' : list cell) (i : nat) (x : Q) :
  replace_with_thresholds df v = Some df' →
  getitem df v = Some s → getitem df' v = Some s' →
  length s ≤ 100 →
  s !! i = Some (CFloat (Num x)) →
  s' !! i ≠ Some (CFloat (Num x)) →
  (∀ j y, j ≠ i → s !! j = Some (CFloat (Num y)) → (x < y)%Q) ∨
  (∀ j y, j ≠ i → s !! j = Some (CFloat (Num y)) → (y < x)%Q).
Proof.
  intros Hr Hs Hs' Hlen Hi Hch.
  destruct (capped_column _ _ _ _ _ Hr Hs Hs')
    as (xs & low & up & -> & -> & Ht & _).
  rewrite length_map in Hlen.
  rewrite !list_lookup_fmap in Hi, Hch.
  destruct (xs !! i) as [xi|] eqn:Hxi; simpl in Hi, Hch; [|done].
  injection Hi as ->.
  assert (clip low up (Num x) ≠ Num x) as Hclip.
  { intros E. apply Hch. rewrite list_lookup_fmap, Hxi. simpl. by rewrite E. }
  apply clip_changed in Hclip.
  set (qs := dropna xs) in *.
  assert (qs ≠ []) as Hne by (intros E; by eapply dropna_nil_NaN).
  assert (length qs ≤ length xs) as Hqlen by apply dropna_length.
  pose proof (StronglySorted_merge_sort Qle qs) as Hsorted.
  pose proof (merge_sort_length qs) as Hslen.
  assert (1 ≤ length (merge_sort Qle qs) ≤ 100) as Hn.
  { rewrite Hslen. destruct qs; [done|simpl in *; lia]. }
  destruct (percentile_positions _ Hsorted Hn) as [Hq1 Hq3].
  destruct (percentiles_ordered _ Hne) as (q1 & q3 & Eq1 & Eq3 & Hle).
  rewrite (outlier_thresholds_values _ _ _ Hs) in Ht. fold qs in Ht.
  rewrite Eq1, Eq3 in Ht. simpl in Ht. injection Ht as <- <-.
  rewrite linear_quantile_interp in Eq1, Eq3 by done.
  injection Eq1 as Eq1. injection Eq3 as Eq3. cbv zeta in Hq1, Hq3.
  rewrite Eq1 in Hq1. rewrite Eq3 in Hq3.
  set (sorted := merge_sort Qle qs) in *.
  assert (∀ (P : Q → Prop) `{∀ q, Decision (P q)},
            length (filter P qs) = length (filter P sorted)) as Hperm.
  { intros P ?. apply Permutation_length. apply filter_Permutation.
    symmetry. apply merge_sort_Permutation. }
  unfold fgt in Hclip. simpl in Hclip.
  destruct Hclip as [Hlow|Hup]; [left|right]; intros j y Hj Hy;
    rewrite !list_lookup_fmap in Hy;
    destruct (xs !! j) as [xj|] eqn:Hxj; simpl in Hy; try done;
    injection Hy as ->; apply Qnot_le_lt; intros Hyx.
  - apply Qltb_lt in Hlow.
    set (a := nth (Nat.min 1 (length sorted - 1)) sorted 0%Q) in *.
    pose proof (sorted_one_below sorted Hsorted) as Hone. fold a in Hone.
    rewrite <- Hperm in Hone.
    assert (2 ≤ length (filter (λ q, Qltb q a = true) qs)); [|lia].
    apply (two_positions_counted _ xs i j x y); [done..| |];
      apply Qltb_lt; lra.
  - apply Qltb_lt in Hup.
    set (b := nth (length sorted - 1 - 1) sorted 0%Q) in *.
    pose proof (sorted_one_above sorted Hsorted) as Hone. fold b in Hone.
    rewrite <- Hperm in Hone.
    assert (2 ≤ length (filter (λ q, Qltb b q = true) qs)); [|lia].
    apply (two_positions_counted _ xs i j x y); [done..| |];
      apply Qltb_lt; lra.
Qed.

Lemma only_extremes_are_capped_witness :
  ∃ (df' : DataFrame) (s s' : list cell) (x' : Q),
    replace_with_thresholds df81 "Purchase" = Some df' ∧
    getitem df81 "Purchase" = Some s ∧ getitem df' "Purchase" = Some s' ∧
    s !! 80 = Some (CFloat (Num 100)) ∧
    s' !! 80 = Some (CFloat (Num x')) ∧ (x' == 50)%Q ∧
    ((∀ j y, j ≠ 80 → s !! j = Some (CFloat (Num y)) → (100 < y)%Q) ∨
     (∀ j y, j ≠ 80 → s !! j = Some (CFloat (Num y)) → (y < 100)%Q)).
Proof.
  eexists _, _, _, _.
  split; [vm_compute; reflexivity|]. split; [vm_compute; reflexivity|].
  split; [vm_compute; reflexivity|]. split; [vm_compute; reflexivity|].
  split; [vm_compute; reflexivity|]. split; [done|].
  eapply (only_extremes_are_capped df81 _ "Purchase" _ _ 80 100).
  - vm_compute. reflexivity.
  - vm_compute. reflexivity.
  - vm_compute. reflexivity.
  - vm_compute. lia.
  - vm_compute. reflexivity.
  - vm_compute. discriminate.
Defined.

Lemma clip_monotone (l u x y : Q) :
  (l <= u)%Q → (x <= y)%Q →
  ∃ x' y', clip (Num l) (Num u) (Num x) = Num x' ∧
           clip (Num l) (Num u) (Num y) = Num y' ∧ (x' <= y')%Q.
Proof.
  intros Hlu Hxy. unfold clip, fgt. simpl.
  destruct (Qltb x l) eqn:Hx, (Qltb y l) eqn:Hy; simpl;
    repeat match goal with
    | |- context [Qltb ?a ?b] => destruct (Qltb a b) eqn:?
    end;
    eexists _, _; (split; [reflexivity|]); (split; [reflexivity|]);
    repeat match goal with
    | H : Qltb _ _ = true |- _ => apply Qltb_lt in H
    | H : Qltb _ _ = false |- _ => apply Qltb_ge in H
    end; lra.
Qed.

(** Property X5. Capping keeps the order of the values: if one entry of the
    field is at most another before [replace_with_thresholds], it still is
    afterwards. *)
Theorem capping_preserves_order (df df' : DataFrame) (v : string)
    (s s' : list cell) (i j : nat) (x y : Q) :
  replace_with_thresholds df v = Some df' →
  getitem df v = Some s → getitem df' v = Some s' →
  s !! i = Some (CFloat (Num x)) → s !! j = Some (CFloat (Num y)) →
  (x <= y)%Q →
  ∃ x' y', s' !! i = Some (CFloat (Num x')) ∧
           s' !! j = Some (CFloat (Num y')) ∧ (x' <= y')%Q.
Proof.
  intros Hr Hs Hs' Hi Hj Hxy.
  destruct (capped_column _ _ _ _ _ Hr Hs Hs')
    as (xs & low & up & -> & -> & Ht & Hord).
  rewrite !list_lookup_fmap in *.
  destruct (xs !! i) as [xi|]; simpl in *; [|done]. injection Hi as ->.
  destruct (xs !! j) as [xj|]; simpl in *; [|done]. injection Hj as ->.
  destruct Hord as [[-> ->]|(l & u & -> & -> & Hlu)].
  - exists x, y. by rewrite !clip_NaN_limits.
  - destruct (clip_monotone l u x y Hlu Hxy) as (x' & y' & -> & -> & Hle).
    by exists x', y'.
Qed.

Lemma capping_preserves_order_witness :
  ∃ (df' : DataFrame) (s s' : list cell) (x' y' : Q),
    replace_with_thresholds df101 "Purchase" = Some df' ∧
    getitem df101 "Purchase" = Some s ∧ getitem df' "Purchase" = Some s' ∧
    s' !! 99 = Some (CFloat (Num x')) ∧ s' !! 100 = Some (CFloat (Num y')) ∧
    (x' == 99)%Q ∧ (y' == 246)%Q ∧
    ∃ x'' y'', s' !! 99 = Some (CFloat (Num x'')) ∧
               s' !! 100 = Some (CFloat (Num y'')) ∧ (x'' <= y'')%Q.
Proof.
  eexists _, _, _, _, _.
  split; [vm_compute; reflexivity|]. split; [vm_compute; reflexivity|].
  split; [vm_compute; reflexivity|]. split; [vm_compute; reflexivity|].
  split; [vm_compute; reflexivity|]. split; [done|]. split; [done|].
  eapply (capping_preserves_order df101 _ "Purchase" _ _ 99 100 99 1000).
  - vm_compute. reflexivity.
  - vm_compute. reflexivity.
  - vm_compute. reflexivity.
  - vm_compute. reflexivity.
  - vm_compute. reflexivity.
  - done.
Defined.

Lemma clip_is_NaN (low up x : float) :
  (low = NaN ∧ up = NaN) ∨ (∃ l u, low = Num l ∧ up = Num u) →
  clip low up x = NaN ↔ x = NaN.
Proof.
  intros Hlim. split; [|intros ->; apply clip_NaN].
  destruct x as [q|]; [|done].
  destruct Hlim as [[-> ->]|(l & u & -> & ->)].
  - by rewrite clip_NaN_limits.
  - unfold clip, fgt. simpl. destruct (Qltb q l); simpl;
      by match goal with |- context [Qltb ?a ?b] => destruct (Qltb a b) end.
Qed.

(** Property X6. Capping neither fills nor creates missing entries: an
    entry of the field is NaN after [replace_with_thresholds] exactly when
    it was NaN before. *)
Theorem capping_keeps_missing_entries (df df' : DataFrame) (v : string)
    (s s' : list cell) (i : nat) :
  replace_with_thresholds df v = Some df' →
  getitem df v = Some s → getitem df' v = Some s' →
  s' !! i = Some (CFloat NaN) ↔ s !! i = Some (CFloat NaN).
Proof.
  intros Hr Hs Hs'.
  destruct (capped_column _ _ _ _ _ Hr Hs Hs')
    as (xs & low & up & -> & -> & Ht & Hord).
  assert ((low = NaN ∧ up = NaN) ∨ (∃ l u, low = Num l ∧ up = Num u)) as Hlim.
  { destruct Hord as [?|(l & u & ? & ? & _)]; [by left|right; eauto]. }
  rewrite !list_lookup_fmap.
  destruct (xs !! i) as [x|]; simpl; [|done].
  split; intros [= Hx]; do 2 f_equal.
  - by apply (clip_is_NaN low up).
  - subst x. apply clip_NaN.
Qed.

Lemma capping_keeps_missing_entries_witness :
  let df := frame 3 [("Purchase", [CFloat (Num 4); CFloat NaN; CFloat (Num 9)])] in
  ∃ (df' : DataFrame) (s' : list cell),
    replace_with_thresholds df "Purchase" = Some df' ∧
    getitem df' "Purchase" = Some s' ∧
    (s' !! 1 = Some (CFloat NaN)
     ↔ [CFloat (Num 4); CFloat NaN; CFloat (Num 9)] !! 1 = Some (CFloat NaN)).
Proof.
  intros df. eexists _, _.
  split; [vm_compute; reflexivity|]. split; [vm_compute; reflexivity|].
  eapply (capping_keeps_missing_entries df _ "Purchase").
  - vm_compute. reflexivity.
  - vm_compute. reflexivity.
  - vm_compute. reflexivity.
Defined.

(** Property X7. Whenever the field has a value, the limits are numbers
    that enclose the two percentiles:
    [low_limit <= Q1 <= Q3 <= up_limit]. *)
Theorem limits_enclose_percentiles (df : DataFrame) (v : string)
    (s : list cell) (i : nat) (x : Q) :
  getitem df v = Some s →
  (∀ str, CStr str ∉ s) →
  s !! i = Some (CFloat (Num x)) →
  ∃ low_limit up_limit Q1 Q3 : Q,
    outlier_thresholds df v = Some (Num low_limit, Num up_limit) ∧
    quantile s (1 # 100) = Some (Num Q1) ∧
    quantile s (99 # 100) = Some (Num Q3) ∧
    (low_limit <= Q1)%Q ∧ (Q1 <= Q3)%Q ∧ (Q3 <= up_limit)%Q.
Proof.
  intros Hs Hnum Hi.
  destruct (floats_cases s) as [(xs & ->)|(str & Hin)]; [|by destruct (Hnum str)].
  rewrite list_lookup_fmap in Hi.
  destruct (xs !! i) as [x0|] eqn:Hx0; simpl in Hi; [|done]. injection Hi as ->.
  assert (dropna xs ≠ []) as Hne by (intros E; by eapply dropna_nil_NaN).
  destruct (percentiles_ordered _ Hne) as (q1 & q3 & Hq1 & Hq3 & Hle).
  eexists _, _, q1, q3.
  rewrite (outlier_thresholds_values _ _ _ Hs). unfold quantile.
  rewrite floats_CFloat. simpl. rewrite Hq1, Hq3. simpl.
  split; [done|]. split; [done|]. split; [done|]. split; [lra|]. split; [done|lra].
Qed.

Lemma limits_enclose_percentiles_witness :
  ∃ low_limit up_limit Q1 Q3 : Q,
    outlier_thresholds df81 "Purchase" = Some (Num low_limit, Num up_limit) ∧
    quantile (fcol (replicate 80 0%Q ++ [100%Q])) (1 # 100) = Some (Num Q1) ∧
    quantile (fcol (replicate 80 0%Q ++ [100%Q])) (99 # 100) = Some (Num Q3) ∧
    (low_limit <= Q1)%Q ∧ (Q1 <= Q3)%Q ∧ (Q3 <= up_limit)%Q.
Proof.
  eapply (limits_enclose_percentiles df81 "Purchase" _ 80 100).
  - vm_compute. reflexivity.
  - intros str Hin. apply list_elem_of_fmap in Hin as (q & Hq & _). discriminate.
  - vm_compute. reflexivity.
Defined.

(** * Further properties of the merge and of the run *)

Lemma replace_with_thresholds_shape (df df' : DataFrame) (v : string) :
  replace_with_thresholds df v = Some df' →
  index df' = index df ∧
  (∀ name, is_Some (columns df' !! name) ↔ is_Some (columns df !! name)) ∧
  (well_formed df → well_formed df').
Proof.
  intros Hr.
  apply replace_with_thresholds_Some in Hr as (xs & low & up & Hxs & Ht & ->).
  simpl. split; [done|]. split.
  - intros name. destruct (decide (name = v)) as [->|Hne].
    + rewrite lookup_insert_eq. unfold getitem in Hxs. rewrite Hxs.
      split; eauto.
    + by rewrite lookup_insert_ne.
  - unfold well_formed, map_Forall, nrows. simpl. intros Hwf name col.
    destruct (decide (name = v)) as [->|Hne].
    + rewrite lookup_insert_eq. intros [= <-]. rewrite !length_map.
      rewrite <- (Hwf _ _ Hxs). by rewrite length_map.
    + rewrite lookup_insert_ne by done. apply Hwf.
Qed.

Lemma nrows_merge_groups (dfc dft : DataFrame) :
  nrows (merge_groups dfc dft) = nrows dfc + nrows dft.
Proof. unfold merge_groups, pd_concat, nrows. simpl. by rewrite length_seq. Qed.

Lemma merge_groups_well_formed (dfc dft : DataFrame) :
  well_formed dfc → well_formed dft → well_formed (merge_groups dfc dft).
Proof.
  intros Hc Ht name col Hcol. rewrite nrows_merge_groups.
  rewrite merge_groups_column in Hcol.
  assert (∀ xa, <["Group" := replicate (nrows dfc) (CStr "C")]> (columns dfc)
                !! name = Some xa → length xa = nrows dfc) as Ha.
  { intros xa. destruct (decide (name = "Group")) as [->|Hne].
    - rewrite lookup_insert_eq. intros [= <-]. apply length_replicate.
    - rewrite lookup_insert_ne by done. apply Hc. }
  assert (∀ xb, <["Group" := replicate (nrows dft) (CStr "T")]> (columns dft)
                !! name = Some xb → length xb = nrows dft) as Hb.
  { intros xb. destruct (decide (name = "Group")) as [->|Hne].
    - rewrite lookup_insert_eq. intros [= <-]. apply length_replicate.
    - rewrite lookup_insert_ne by done. apply Ht. }
  destruct (_ !! name) as [xa|], (_ !! name) as [xb|]; simpl in Hcol;
    try discriminate; injection Hcol as <-;
    rewrite length_app, ?length_replicate, ?(Ha _ eq_refl), ?(Hb _ eq_refl); done.
Qed.

(** Property X8. From two well-formed sheets the preparation yields a
    well-formed frame with |Control| + |Test| rows, whose columns are those
    of either sheet together with "Group"; this also holds when the two
    sheets do not have the same columns. *)
Theorem prepare_keeps_frame_well_formed (dfc dft df : DataFrame) :
  well_formed dfc → well_formed dft →
  prepare dfc dft = Some df →
  well_formed df ∧ nrows df = nrows dfc + nrows dft ∧
  ∀ name, is_Some (columns df !! name) ↔
          name = "Group" ∨ is_Some (columns dfc !! name)
                         ∨ is_Some (columns dft !! name).
Proof.
  intros Hc Ht Hp. unfold prepare in Hp.
  destruct (replace_with_thresholds dfc "Purchase") as [a|] eqn:Ha; [|done].
  destruct (replace_with_thresholds dft "Purchase") as [b|] eqn:Hb; [|done].
  simpl in Hp. injection Hp as <-.
  destruct (replace_with_thresholds_shape _ _ _ Ha) as (Hia & Hda & Hwa).
  destruct (replace_with_thresholds_shape _ _ _ Hb) as (Hib & Hdb & Hwb).
  split; [apply merge_groups_well_formed; auto|].
  split; [rewrite nrows_merge_groups; unfold nrows; by rewrite Hia, Hib|].
  intros name. rewrite merge_groups_column, <- Hda, <- Hdb.
  destruct (decide (name = "Group")) as [->|Hne].
  - rewrite !lookup_insert_eq. simpl. split; eauto.
  - rewrite !lookup_insert_ne by done.
    destruct (columns a !! name), (columns b !! name); simpl;
      split; eauto; intros [?|[[? ?]|[? ?]]]; done.
Qed.

Lemma prepare_keeps_frame_well_formed_witness :
  ∃ df, prepare control_sheet test_sheet = Some df ∧
        well_formed df ∧ nrows df = 5 + 4 ∧
        ∀ name, is_Some (columns df !! name) ↔
                name = "Group" ∨ is_Some (columns control_sheet !! name)
                               ∨ is_Some (columns test_sheet !! name).
Proof.
  eexists. split; [vm_compute; reflexivity|].
  apply (prepare_keeps_frame_well_formed control_sheet test_sheet).
  - apply (bool_decide_unpack _). vm_compute. exact I.
  - apply (bool_decide_unpack _). vm_compute. exact I.
  - vm_compute. reflexivity.
Defined.

(** Property X9. For well-formed sheets, selecting the rows of a group from
    the combined frame gives back that group's capped Purchase column: the
    samples handed to the tests are the capped control purchases and the
    capped test purchases, each in its original order. *)
Theorem samples_are_the_capped_purchases (dfc dft df : DataFrame) :
  well_formed dfc → well_formed dft →
  prepare dfc dft = Some df →
  ∃ c t,
    (dfc' ← replace_with_thresholds dfc "Purchase"; getitem dfc' "Purchase")
    = Some c ∧
    (dft' ← replace_with_thresholds dft "Purchase"; getitem dft' "Purchase")
    = Some t ∧
    loc_where df "Group" "C" "Purchase" = Some c ∧
    loc_where df "Group" "T" "Purchase" = Some t.
Proof.
  intros Hc Ht Hp. unfold prepare in Hp.
  destruct (replace_with_thresholds dfc "Purchase") as [a|] eqn:Ha; [|done].
  destruct (replace_with_thresholds dft "Purchase") as [b|] eqn:Hb; [|done].
  simpl in Hp. injection Hp as <-. simpl.
  destruct (replace_with_thresholds_shape _ _ _ Ha) as (_ & Hda & Hwa).
  destruct (replace_with_thresholds_shape _ _ _ Hb) as (_ & Hdb & Hwb).
  assert (is_Some (getitem a "Purchase")) as [c Hgc].
  { apply Hda. apply replace_with_thresholds_Some in Ha as (? & ? & ? & Hx & _).
    unfold getitem in Hx. eauto. }
  assert (is_Some (getitem b "Purchase")) as [t Hgt].
  { apply Hdb. apply replace_with_thresholds_Some in Hb as (? & ? & ? & Hx & _).
    unfold getitem in Hx. eauto. }
  exists c, t. split; [done|]. split; [done|].
  apply group_purchases; auto.
Qed.

Lemma samples_are_the_capped_purchases_witness :
  ∃ df, prepare control_sheet test_sheet = Some df ∧
    ∃ c t,
      (dfc' ← replace_with_thresholds control_sheet "Purchase";
       getitem dfc' "Purchase") = Some c ∧
      (dft' ← replace_with_thresholds test_sheet "Purchase";
       getitem dft' "Purchase") = Some t ∧
      loc_where df "Group" "C" "Purchase" = Some c ∧
      loc_where df "Group" "T" "Purchase" = Some t.
Proof.
  eexists. split; [vm_compute; reflexivity|].
  apply (samples_are_the_capped_purchases control_sheet test_sheet).
  - apply (bool_decide_unpack _). vm_compute. exact I.
  - apply (bool_decide_unpack _). vm_compute. exact I.
  - vm_compute. reflexivity.
Defined.

Lemma loc_where_merge_groups (a b : DataFrame) (g : string) (pa pb : list cell) :
  getitem a "Purchase" = Some pa → getitem b "Purchase" = Some pb →
  loc_where (merge_groups a b) "Group" g "Purchase"
  = Some (select (series_eq (replicate (nrows a) (CStr "C")
                             ++ replicate (nrows b) (CStr "T")) g)
                 (pa ++ pb)).
Proof.
  intros Ha Hb. unfold loc_where. rewrite merge_groups_labels. simpl.
  unfold getitem in *. rewrite merge_groups_column.
  rewrite !lookup_insert_ne by done. by rewrite Ha, Hb.
Qed.

Lemma capped_purchase_column (df df' : DataFrame) :
  replace_with_thresholds df "Purchase" = Some df' →
  ∃ xs, getitem df "Purchase" = Some (map CFloat xs) ∧
        nrows df' = nrows df ∧
        getitem df' "Purchase"
        = Some (map CFloat
                  (map (clip
                     (let q1 := linear_quantile (dropna xs) (1 # 100) in
                      let q3 := linear_quantile (dropna xs) (99 # 100) in
                      fsub q1 (fmul (Num (3 # 2)) (fsub q3 q1)))
                     (let q1 := linear_quantile (dropna xs) (1 # 100) in
                      let q3 := linear_quantile (dropna xs) (99 # 100) in
                      fadd q3 (fmul (Num (3 # 2)) (fsub q3 q1)))) xs)).
Proof.
  intros Hr.
  apply replace_with_thresholds_Some in Hr as (xs & low & up & Hxs & Ht & ->).
  exists xs. split; [done|]. split; [done|].
  rewrite (outlier_thresholds_values _ _ _ Hxs) in Ht. simpl in Ht.
  injection Ht as <- <-. unfold getitem. simpl. by rewrite lookup_insert_eq.
Qed.

Lemma prepare_samples (dfc dft df : DataFrame) :
  prepare dfc dft = Some df →
  ∃ c t, loc_where df "Group" "C" "Purchase" = Some c ∧
         loc_where df "Group" "T" "Purchase" = Some t.
Proof.
  unfold prepare. intros Hp.
  destruct (replace_with_thresholds dfc "Purchase") as [a|] eqn:Ha; [|done].
  destruct (replace_with_thresholds dft "Purchase") as [b|] eqn:Hb; [|done].
  simpl in Hp. injection Hp as <-.
  destruct (capped_purchase_column _ _ Ha) as (xa & _ & _ & Hpa).
  destruct (capped_purchase_column _ _ Hb) as (xb & _ & _ & Hpb).
  eexists _, _. split; by apply loc_where_merge_groups.
Qed.

Section RunFacts.
Context `{stats : ScipyStats}.


(** Property X11. A test that raises ends the run: it is the last call of
    the log, every call before it returned, one verdict was printed for
    each of those and nothing for the one that raised. *)
Theorem raising_test_ends_the_run (dfc dft : DataFrame) (w : World) :
  run dfc dft = (w, None) →
  (calls w = [] ∧ stdout w = []) ∨
  ∃ before last,
    calls w = before ++ [last] ∧ call_result last = None ∧
    Forall (λ c, is_Some (call_result c)) before ∧
    length (stdout w) = length before.
Proof.
  rewrite run_unfold. destruct (prepare dfc dft) as [df|] eqn:Hp;
    [|intros [= <-]; by left].
  destruct (prepare_samples _ _ _ Hp) as (c & t & Hc & Ht).
  rewrite ab_test_unfold, Hc, Ht. simpl. intros Hrun. right.
  destruct (shapiro c) as [[? ?]|] eqn:H1.
  2:{ injection Hrun as <-. by exists [], (CallShapiro c). }
  destruct (shapiro t) as [[? ?]|] eqn:H2.
  2:{ injection Hrun as <-. exists [CallShapiro c], (CallShapiro t).
      repeat split; try done. repeat constructor; simpl; eauto. }
  destruct (levene c t) as [[? ?]|] eqn:H3.
  2:{ injection Hrun as <-. exists [CallShapiro c; CallShapiro t], (CallLevene c t).
      repeat split; try done. repeat constructor; simpl; eauto. }
  destruct (ttest_ind c t true) as [[? ?]|] eqn:H4; [done|].
  injection Hrun as <-.
  exists [CallShapiro c; CallShapiro t; CallLevene c t], (CallTtestInd c t true).
  repeat split; try done. repeat constructor; simpl; eauto.
Qed.

End RunFacts.

Lemma capper_reads_only_purchases (df df2 : DataFrame) :
  nrows df = nrows df2 →
  getitem df "Purchase" = getitem df2 "Purchase" →
  match replace_with_thresholds df "Purchase",
        replace_with_thresholds df2 "Purchase" with
  | Some a, Some a2 =>
      nrows a = nrows a2 ∧ getitem a "Purchase" = getitem a2 "Purchase" ∧
      is_Some (getitem a "Purchase")
  | None, None => True
  | _, _ => False
  end.
Proof.
  intros Hn Hg.
  destruct (replace_with_thresholds df "Purchase") as [a|] eqn:Ha.
  - destruct (capped_purchase_column _ _ Ha) as (xs & Hxs & Hna & Hpa).
    pose proof Hxs as Hxs2. rewrite Hg in Hxs2.
    destruct (replace_with_thresholds_succeeds _ _ _ Hxs2) as [a2 Ha2].
    rewrite Ha2.
    destruct (capped_purchase_column _ _ Ha2) as (xs2 & Hxs2' & Hna2 & Hpa2).
    rewrite Hxs2 in Hxs2'. injection Hxs2' as Heq.
    assert (xs2 = xs) as ->.
    { apply (f_equal floats) in Heq. rewrite !floats_CFloat in Heq. congruence. }
    split; [congruence|]. split; [congruence|]. rewrite Hpa. eauto.
  - apply replace_with_thresholds_None in Ha. rewrite Hg in Ha.
    apply replace_with_thresholds_None in Ha. by rewrite Ha.
Qed.

Section RunReads.
Context `{stats : ScipyStats}.

Lemma ab_test_reads_only_samples (df df2 : DataFrame) (w : World) :
  loc_where df "Group" "C" "Purchase" = loc_where df2 "Group" "C" "Purchase" →
  loc_where df "Group" "T" "Purchase" = loc_where df2 "Group" "T" "Purchase" →
  ab_test df w = ab_test df2 w.
Proof. intros Hc Ht. by rewrite !ab_test_unfold, Hc, Ht. Qed.

(** Property X13. The run reads nothing but the "Purchase" columns and the
    row counts of the two sheets: two pairs of sheets that agree on these
    give the same calls, the same output and the same outcome, whatever
    their other columns hold. *)
Theorem run_reads_only_purchases (dfc dft dfc2 dft2 : DataFrame) :
  nrows dfc = nrows dfc2 →
  getitem dfc "Purchase" = getitem dfc2 "Purchase" →
  nrows dft = nrows dft2 →
  getitem dft "Purchase" = getitem dft2 "Purchase" →
  run dfc dft = run dfc2 dft2.
Proof.
  intros Hnc Hgc Hnt Hgt. rewrite !run_unfold. unfold prepare.
  pose proof (capper_reads_only_purchases _ _ Hnc Hgc) as Hc.
  pose proof (capper_reads_only_purchases _ _ Hnt Hgt) as Ht.
  destruct (replace_with_thresholds dfc "Purchase") as [a|],
           (replace_with_thresholds dfc2 "Purchase") as [a2|]; try done.
  destruct (replace_with_thresholds dft "Purchase") as [b|],
           (replace_with_thresholds dft2 "Purchase") as [b2|]; try done.
  simpl. destruct Hc as (Hna & Hpa & [pa Hpa']), Ht as (Hnb & Hpb & [pb Hpb']).
  apply ab_test_reads_only_samples.
  - rewrite (loc_where_merge_groups a b "C" pa pb) by done.
    rewrite (loc_where_merge_groups a2 b2 "C" pa pb) by congruence.
    by rewrite Hna, Hnb.
  - rewrite (loc_where_merge_groups a b "T" pa pb) by done.
    rewrite (loc_where_merge_groups a2 b2 "T" pa pb) by congruence.
    by rewrite Hna, Hnb.
Qed.
End RunReads.

Lemma run_reads_only_purchases_witness :
  run (stats := scipy_reported) control_sheet test_sheet
  = run (stats := scipy_reported)
      (frame 5 [("Purchase", fcol [665; 315; 458; 487; 441]%Q);
                ("Group", replicate 5 (CStr "T"))])
      (frame 4 [("Purchase", fcol [702; 834; 423; 429]%Q)]).
Proof.
  apply (run_reads_only_purchases (stats := scipy_reported)); reflexivity.
Defined.


Lemma raising_test_ends_the_run_witness :
  ∃ w, run (stats := scipy_small_sample) control_sheet
         (frame 2 [("Purchase", fcol [702; 834]%Q)]) = (w, None) ∧
       length (calls w) = 2 ∧ length (stdout w) = 1 ∧
       ((calls w = [] ∧ stdout w = []) ∨
        ∃ before last,
          calls w = before ++ [last] ∧
          call_result (stats := scipy_small_sample) last = None ∧
          Forall (λ c, is_Some (call_result (stats := scipy_small_sample) c))
                 before ∧
          length (stdout w) = length before).
Proof.
  eexists. split; [vm_compute; reflexivity|].
  split; [reflexivity|]. split; [reflexivity|].
  apply (raising_test_ends_the_run (stats := scipy_small_sample) control_sheet
           (frame 2 [("Purchase", fcol [702; 834]%Q)])).
  vm_compute. reflexivity.
Defined.

